(** * A shallow embedding of [src/visitor.rs] of cargo-check-external-types

    The visitor walks the rustdoc JSON index of a crate, starting from the
    crate root module, and records every reference to a type that the
    configuration does not allow.  This file embeds the visitor, the parts
    of the rustdoc types it reads, and the collaborators it calls
    ([Path], [ValidationError], [Config]) as far as the visitor uses them. *)

From Stdlib Require Import String Ascii List NArith Lia Bool Sorted Permutation.
From Stdlib Require Import DecimalString FunctionalExtensionality.
From Stdlib Require DecimalN.
Import ListNotations.
Set Warnings "-register-all".

(* ------------------------------------------------------------------ *)
(** ** Total orders given by a comparison function *)

(** [BTreeSet] orders its elements by [Ord].  A comparison function is a
    total order when it says [Eq] exactly on equal values, is antisymmetric
    and is transitive. *)
Record cmp_ok {A : Type} (cmp : A -> A -> comparison) : Prop := {
  cmp_eq_iff : forall x y, cmp x y = Eq <-> x = y;
  cmp_antisym : forall x y, cmp y x = CompOpp (cmp x y);
  cmp_lt_trans : forall x y z, cmp x y = Lt -> cmp y z = Lt -> cmp x z = Lt
}.

Definition lex_cmp {A B : Type} (ca : A -> A -> comparison) (cb : B -> B -> comparison)
    (p q : A * B) : comparison :=
  match ca (fst p) (fst q) with
  | Eq => cb (snd p) (snd q)
  | c => c
  end.

Fixpoint list_cmp {A : Type} (c : A -> A -> comparison) (l1 l2 : list A) : comparison :=
  match l1, l2 with
  | [], [] => Eq
  | [], _ :: _ => Lt
  | _ :: _, [] => Gt
  | x :: r1, y :: r2 =>
      match c x y with
      | Eq => list_cmp c r1 r2
      | o => o
      end
  end.

(** [Option] orders [None] before [Some], as Rust's derived [Ord] does. *)
Definition option_cmp {A : Type} (c : A -> A -> comparison) (o1 o2 : option A) : comparison :=
  match o1, o2 with
  | None, None => Eq
  | None, Some _ => Lt
  | Some _, None => Gt
  | Some x, Some y => c x y
  end.

Definition via_cmp {A B : Type} (f : A -> B) (c : B -> B -> comparison) (x y : A) : comparison :=
  c (f x) (f y).

(** Strings compare as Rust's [String] does: byte-wise lexicographically. *)
Definition string_key (s : string) : list N := map N_of_ascii (list_ascii_of_string s).

Definition string_cmp : string -> string -> comparison := via_cmp string_key (list_cmp N.compare).

(* ------------------------------------------------------------------ *)
(** ** Source spans, error locations and validation errors *)

(** [rustdoc_types::Span]: a file name and begin and end (line, column). *)
Record Span : Type := mkSpan {
  filename : string;
  span_begin : N * N;
  span_end : N * N
}.

Definition span_key (s : Span) : string * ((N * N) * (N * N)) :=
  (filename s, (span_begin s, span_end s)).

Definition span_cmp : Span -> Span -> comparison :=
  via_cmp span_key
    (lex_cmp string_cmp (lex_cmp (lex_cmp N.compare N.compare) (lex_cmp N.compare N.compare))).

(** Modelled from the spec: [crate::error::ErrorLocation] is not part of
    the sources; these are the usage-location tags the visitor passes to
    it, one constructor per tag, in the order they are declared here. *)
Module ErrorLocation.
Inductive t : Type :=
| AssocType
| ArgumentNamed (name : string)
| ClosureInput
| ClosureOutput
| ConstGeneric
| Constant
| EnumTupleEntry
| GenericArg
| GenericDefaultBinding
| ImplementedTrait
| QualifiedSelfType
| QualifiedSelfTypeAsTrait
| ReExport
| ReturnValue
| Static
| StructField
| TraitBound
| TypeDef
| WhereBound.

Definition key (l : t) : N * string :=
  match l with
  | AssocType => (0%N, ""%string)
  | ArgumentNamed n => (1%N, n)
  | ClosureInput => (2%N, ""%string)
  | ClosureOutput => (3%N, ""%string)
  | ConstGeneric => (4%N, ""%string)
  | Constant => (5%N, ""%string)
  | EnumTupleEntry => (6%N, ""%string)
  | GenericArg => (7%N, ""%string)
  | GenericDefaultBinding => (8%N, ""%string)
  | ImplementedTrait => (9%N, ""%string)
  | QualifiedSelfType => (10%N, ""%string)
  | QualifiedSelfTypeAsTrait => (11%N, ""%string)
  | ReExport => (12%N, ""%string)
  | ReturnValue => (13%N, ""%string)
  | Static => (14%N, ""%string)
  | StructField => (15%N, ""%string)
  | TraitBound => (16%N, ""%string)
  | TypeDef => (17%N, ""%string)
  | WhereBound => (18%N, ""%string)
  end.

Definition cmp : t -> t -> comparison := via_cmp key (lex_cmp N.compare string_cmp).

End ErrorLocation.

(** Modelled from the spec: [crate::error::ValidationError] is not part of
    the sources.  The spec describes it as a record of the referenced
    external name, the usage-location tag, the path rendering and an
    optional span, totally ordered so that identical records collapse in a
    set; the order here is the one Rust derives, field by field. *)
Record ValidationError : Type := mkValidationError {
  ve_type_name : string;
  ve_what : ErrorLocation.t;
  ve_in_what_type : string;
  ve_location : option Span
}.

(** [ValidationError::unapproved_external_type_ref] *)
Definition unapproved_external_type_ref (type_name : string) (what : ErrorLocation.t)
    (in_what_type : string) (location : option Span) : ValidationError :=
  mkValidationError type_name what in_what_type location.

Definition ve_key (e : ValidationError) :=
  (ve_type_name e, (ve_what e, (ve_in_what_type e, ve_location e))).

Definition ve_cmp : ValidationError -> ValidationError -> comparison :=
  via_cmp ve_key
    (lex_cmp string_cmp
       (lex_cmp ErrorLocation.cmp (lex_cmp string_cmp (option_cmp span_cmp)))).

(* ------------------------------------------------------------------ *)
(** ** The error set: [RefCell<BTreeSet<ValidationError>>] *)

(** A [BTreeSet] is kept as the strictly increasing list of its elements,
    which is also the order in which it is iterated. *)
Definition ErrSet := list ValidationError.

Definition es_empty : ErrSet := [].

(** [BTreeSet::insert]: an element already present leaves the set as it is. *)
Fixpoint es_insert (e : ValidationError) (s : ErrSet) : ErrSet :=
  match s with
  | [] => [e]
  | x :: r =>
      match ve_cmp e x with
      | Lt => e :: x :: r
      | Eq => x :: r
      | Gt => x :: es_insert e r
      end
  end.

Definition es_sorted (s : ErrSet) : Prop := Sorted (fun a b => ve_cmp a b = Lt) s.

Definition ve_eqb (a b : ValidationError) : bool :=
  match ve_cmp a b with Eq => true | _ => false end.

(** Number of entries of [s] equal to [e]. *)
Definition es_count (e : ValidationError) (s : ErrSet) : nat :=
  length (filter (ve_eqb e) s).

(* ------------------------------------------------------------------ *)
(** ** rustdoc types read by the visitor *)

(** [rustdoc_types::Id] wraps a string of the form ["<crate id>:<index>"]. *)
Definition Id := string.

Module TraitBoundModifier.
Inductive t : Type := None | Maybe | MaybeConst.
End TraitBoundModifier.

(** [rustdoc_types::Type] and the types it is mutually recursive with. *)
Inductive Ty : Type :=
| ResolvedPath (name : string) (id : Id) (args : option GenericArgs)
    (param_names : list GenericBound)
| Generic (g : string)
| Primitive (p : string)
| FunctionPointer (decl : FnDecl) (generic_params : list GenericParamDef)
| Tuple (types : list Ty)
| Slice (type_ : Ty)
| Array (type_ : Ty) (len : string)
| ImplTrait (bounds : list GenericBound)
| Infer
| RawPointer (mutable : bool) (type_ : Ty)
| BorrowedRef (lifetime : option string) (mutable : bool) (type_ : Ty)
| QualifiedPath (name : string) (self_type : Ty) (trait_ : Ty)
with GenericArgs : Type :=
| AngleBracketed (args : list GenericArg) (bindings : list TypeBinding)
| Parenthesized (inputs : list Ty) (output : option Ty)
with GenericArg : Type :=
| GenericArg_Lifetime (l : string)
| GenericArg_Type (t : Ty)
| GenericArg_Const (c : string)
| GenericArg_Infer
with TypeBinding : Type :=
| mkTypeBinding (name : string) (args : GenericArgs) (binding : TypeBindingKind)
with TypeBindingKind : Type :=
| Equality (term : Term)
| Constraint (bounds : list GenericBound)
with Term : Type :=
| Term_Type (t : Ty)
| Term_Constant (c : string)
with GenericBound : Type :=
| TraitBound (trait_ : Ty) (generic_params : list GenericParamDef)
    (modifier : TraitBoundModifier.t)
| Outlives (l : string)
with GenericParamDef : Type :=
| mkGenericParamDef (name : string) (kind : GenericParamDefKind)
with GenericParamDefKind : Type :=
| GenericParamDefKind_Lifetime (outlives : list string)
| GenericParamDefKind_Type (bounds : list GenericBound) (default : option Ty) (synthetic : bool)
| GenericParamDefKind_Const (type_ : Ty) (default : option string)
with FnDecl : Type :=
| mkFnDecl (inputs : list (string * Ty)) (output : option Ty) (c_variadic : bool).

Inductive WherePredicate : Type :=
| BoundPredicate (type_ : Ty) (bounds : list GenericBound) (generic_params : list GenericParamDef)
| RegionPredicate (lifetime : string) (bounds : list GenericBound)
| EqPredicate (lhs : Ty) (rhs : Term).

Record Generics : Type := mkGenerics {
  params : list GenericParamDef;
  where_predicates : list WherePredicate
}.

Module Visibility.
Inductive t : Type :=
| Public
| Default
| Crate
| Restricted (parent : Id) (path : string).
End Visibility.

Module Variant.
Inductive t : Type :=
| Plain
| Tuple (types : list Ty)
| Struct (fields : list Id).
End Variant.

Record Module_ : Type := mkModule { is_crate : bool; module_items : list Id; is_stripped : bool }.
Record Import : Type := mkImport { source : string; import_name : string; import_id : option Id; glob : bool }.
Record Union : Type := mkUnion {
  union_generics : Generics; union_fields_stripped : bool; union_fields : list Id; union_impls : list Id }.
Record Struct : Type := mkStruct {
  struct_generics : Generics; struct_fields_stripped : bool; struct_fields : list Id; struct_impls : list Id }.
Record Enum : Type := mkEnum {
  enum_generics : Generics; variants_stripped : bool; variants : list Id; enum_impls : list Id }.
Record Function : Type := mkFunction { function_decl : FnDecl; function_generics : Generics }.
Record Method : Type := mkMethod { method_decl : FnDecl; method_generics : Generics; has_body : bool }.
Record Trait : Type := mkTrait {
  is_auto : bool; trait_is_unsafe : bool; trait_items : list Id; trait_generics : Generics;
  trait_bounds : list GenericBound; implementations : list Id }.
Record Impl : Type := mkImpl {
  impl_is_unsafe : bool; impl_generics : Generics; provided_trait_methods : list string;
  impl_trait : option Ty; for_ : Ty; impl_items : list Id; negative : bool; synthetic : bool;
  blanket_impl : option Ty }.
Record Typedef : Type := mkTypedef { typedef_type : Ty; typedef_generics : Generics }.
Record Constant : Type := mkConstant { constant_type : Ty; expr : string; value : option string; is_literal : bool }.
Record Static : Type := mkStatic { static_type : Ty; static_mutable : bool; static_expr : string }.

(** [rustdoc_types::ItemEnum] *)
Module ItemEnum.
Inductive t : Type :=
| Module (m : Module_)
| ExternCrate (name : string) (rename : option string)
| Import (i : Import)
| Union (u : Union)
| Struct (s : Struct)
| StructField (type_ : Ty)
| Enum (e : Enum)
| Variant (v : Variant.t)
| Function (f : Function)
| Trait (t : Trait)
| TraitAlias (generics : Generics) (params : list GenericBound)
| Method (m : Method)
| Impl (i : Impl)
| Typedef (t : Typedef)
| OpaqueTy (bounds : list GenericBound) (generics : Generics)
| Constant (c : Constant)
| Static (s : Static)
| ForeignType
| Macro (m : string)
| ProcMacro (kind : string) (helpers : list string)
| PrimitiveType (p : string)
| AssocConst (type_ : Ty) (default : option string)
| AssocType (generics : Generics) (bounds : list GenericBound) (default : option Ty).
End ItemEnum.

(** [rustdoc_types::Item], with the fields the visitor reads. *)
Record Item : Type := mkItem {
  id : Id;
  crate_id : N;
  name : option string;
  span : option Span;
  visibility : Visibility.t;
  inner : ItemEnum.t
}.

(** [rustdoc_types::ItemSummary] *)
Record ItemSummary : Type := mkItemSummary { summary_crate_id : N; summary_path : list string }.

(* ------------------------------------------------------------------ *)
(** ** Paths *)

(** Modelled from the spec: [crate::path] is not part of the sources.  A
    path is the sequence of (kind, name, optional location) components by
    which the traversal reached the current point; it starts with a
    component for the crate, is only extended, and renders as its names
    joined with ["::"].  [push] names the component after the item; no
    claim here depends on what it does for an item without a name, which
    this model renders as the empty name. *)
Module ComponentType.
Inductive t : Type :=
| AssocConst | AssocType | Constant | Crate | Enum | EnumVariant | Function | Method
| Module | ReExport | Static | Struct | StructField | Trait | TypeDef | Union.
End ComponentType.

Record Component : Type := mkComponent {
  typ : ComponentType.t;
  comp_name : string;
  comp_span : option Span
}.

(** The stack of components, innermost last. *)
Definition Path := list Component.

Definition path_new (crate_name : string) : Path := [mkComponent ComponentType.Crate crate_name None].

Definition push_raw (p : Path) (typ : ComponentType.t) (name : string) (span : option Span) : Path :=
  p ++ [mkComponent typ name span].

Definition push (p : Path) (typ : ComponentType.t) (item : Item) : Path :=
  push_raw p typ (match name item with Some n => n | None => ""%string end) (span item).

Definition last_type (p : Path) : option ComponentType.t :=
  match rev p with [] => None | c :: _ => Some (typ c) end.

Definition last_span (p : Path) : option Span :=
  match rev p with [] => None | c :: _ => comp_span c end.

Fixpoint join (sep : string) (l : list string) : string :=
  match l with
  | [] => ""
  | [x] => x
  | x :: r => x ++ sep ++ join sep r
  end%string.

Definition path_to_string (p : Path) : string := join "::" (map comp_name p).

(* ------------------------------------------------------------------ *)
(** ** The visitor's effects *)

(** A call either returns, returns an [anyhow] error (propagated by [?]),
    panics ([panic!], [unreachable!], [unimplemented!], [expect]), or runs
    out of the recursion budget [fuel] that bounds the walk over the index
    (the Rust code has no such bound: on a cyclic index it does not stop). *)
Inductive Result (A : Type) : Type :=
| ROk (a : A)
| RErr (msg : string)
| RPanic (msg : string)
| RFuel.
Arguments ROk {A} a.
Arguments RErr {A} msg.
Arguments RPanic {A} msg.
Arguments RFuel {A}.

(** The only state the walk mutates is the error set in the [RefCell]. *)
Definition M (A : Type) : Type := ErrSet -> Result (A * ErrSet).

Definition ret {A : Type} (a : A) : M A := fun s => ROk (a, s).

Definition bind {A B : Type} (m : M A) (k : A -> M B) : M B :=
  fun s =>
    match m s with
    | ROk (a, s') => k a s'
    | RErr e => RErr e
    | RPanic e => RPanic e
    | RFuel => RFuel
    end.

Definition fail {A : Type} (msg : string) : M A := fun _ => RErr msg.
Definition panic {A : Type} (msg : string) : M A := fun _ => RPanic msg.
Definition out_of_fuel {A : Type} : M A := fun _ => RFuel.

Notation "x <- m1 ;; m2" := (bind m1 (fun x => m2))
  (at level 61, m1 at next level, right associativity).
Notation "m1 ;; m2" := (bind m1 (fun _ => m2)) (at level 61, right associativity).

(** [for x in l { f(x)?; }] *)
Fixpoint iterM {A : Type} (f : A -> M unit) (l : list A) : M unit :=
  match l with
  | [] => ret tt
  | x :: r => f x ;; iterM f r
  end.

(* ------------------------------------------------------------------ *)
(** ** The visitor *)

(** Modelled from the spec: [crate::config::Config] is not part of the
    sources; the visitor only asks it [allows_type(root_crate_name,
    type_name)], the policy's pure predicate. *)
Record Config : Type := mkConfig { allows_type : string -> string -> bool }.

(** A [HashMap] is an association list whose order is its iteration order. *)
Fixpoint lookup {V : Type} (k : Id) (m : list (Id * V)) : option V :=
  match m with
  | [] => None
  | (k', x) :: r => if String.eqb k k' then Some x else lookup k r
  end.

Record Visitor : Type := mkVisitor {
  config : Config;
  root_crate_id : N;
  root_crate_name : string;
  index : list (Id * Item);
  paths : list (Id * ItemSummary)
}.

Inductive VisibilityCheck : Type := Default | AssumePublic.

Definition VisibilityCheck_eqb (a b : VisibilityCheck) : bool :=
  match a, b with
  | Default, Default | AssumePublic, AssumePublic => true
  | _, _ => false
  end.

(** [format!("{}", n)] of a [u32] *)
Definition string_of_N (n : N) : string := NilZero.string_of_uint (N.to_uint n).

Definition item (v : Visitor) (i : Id) : M Item :=
  match lookup i (index v) with
  | Some it => ret it
  | None => fail "Failed to find item in index"
  end.

Definition item_summary (v : Visitor) (i : Id) : option ItemSummary := lookup i (paths v).

Definition type_name (v : Visitor) (i : Id) : option string :=
  match item_summary v i with
  | Some s => Some (join "::" (summary_path s))
  | None => None
  end.

Definition in_root_crate (v : Visitor) (i : Id) : bool :=
  String.prefix (string_of_N (root_crate_id v) ++ ":") i.

Definition add_error (e : ValidationError) : M unit := fun s => ret tt (es_insert e s).

Definition check_external (v : Visitor) (path : Path) (what : ErrorLocation.t) (i : Id) : M unit :=
  match type_name v i with
  | Some tn =>
      if negb (allows_type (config v) (root_crate_name v) tn) then
        add_error (unapproved_external_type_ref tn what (path_to_string path) (last_span path))
      else ret tt
  | None =>
      if negb (String.prefix (string_of_N (root_crate_id v) ++ ":") i) then
        panic "A type is referencing another type that is not in the index, and that type is from another crate."
      else ret tt
  end.

Definition is_public (path : Path) (it : Item) : bool :=
  match visibility it with
  | Visibility.Public => true
  | Visibility.Default =>
      match inner it, last_type path with
      | ItemEnum.Variant _, Some ComponentType.Enum => true
      | ItemEnum.StructField _, Some ComponentType.EnumVariant => true
      | _, Some ComponentType.Trait => true
      | _, _ => false
      end
  | _ => false
  end.

(* ------------------------------------------------------------------ *)
(** ** Walking types: [visit_type] and the functions it calls *)

Section TypeWalk.
Variable v : Visitor.
Variable path : Path.

Fixpoint visit_type (what : ErrorLocation.t) (t : Ty) {struct t} : M unit :=
  match t with
  | ResolvedPath _ i args param_names =>
      check_external v path what i ;;
      (match args with
       | Some a => visit_generic_args a
       | None => ret tt
       end) ;;
      iterM visit_generic_bound param_names
  | Generic _ => ret tt
  | Primitive _ => ret tt
  | FunctionPointer decl generic_params =>
      visit_fn_decl decl ;;
      iterM visit_generic_param_def generic_params
  | Tuple types => iterM (visit_type ErrorLocation.EnumTupleEntry) types
  | Slice ty => visit_type what ty
  | Array ty _ => visit_type what ty
  | ImplTrait bounds =>
      iterM (fun bound =>
               match bound with
               | TraitBound trait_ generic_params _ =>
                   visit_type what trait_ ;;
                   iterM visit_generic_param_def generic_params
               | Outlives _ => ret tt
               end) bounds
  | Infer =>
      panic "This is a bug (visit_type for Type::Infer)."
  | RawPointer _ ty => visit_type what ty
  | BorrowedRef _ _ ty => visit_type what ty
  | QualifiedPath _ self_type trait_ =>
      visit_type ErrorLocation.QualifiedSelfType self_type ;;
      visit_type ErrorLocation.QualifiedSelfTypeAsTrait trait_
  end
with visit_generic_args (a : GenericArgs) {struct a} : M unit :=
  match a with
  | AngleBracketed args bindings =>
      iterM (fun arg =>
               match arg with
               | GenericArg_Type ty => visit_type ErrorLocation.GenericArg ty
               | GenericArg_Lifetime _ | GenericArg_Const _ | GenericArg_Infer => ret tt
               end) args ;;
      iterM (fun binding =>
               match binding with
               | mkTypeBinding _ _ (Equality term) =>
                   match term with
                   | Term_Type ty => visit_type ErrorLocation.GenericDefaultBinding ty
                   | Term_Constant _ => ret tt
                   end
               | mkTypeBinding _ _ (Constraint bounds) => iterM visit_generic_bound bounds
               end) bindings
  | Parenthesized inputs output =>
      iterM (visit_type ErrorLocation.ClosureInput) inputs ;;
      match output with
      | Some o => visit_type ErrorLocation.ClosureOutput o
      | None => ret tt
      end
  end
(** One iteration of the loop of [visit_generic_bounds]. *)
with visit_generic_bound (b : GenericBound) {struct b} : M unit :=
  match b with
  | TraitBound trait_ generic_params _ =>
      visit_type ErrorLocation.TraitBound trait_ ;;
      iterM visit_generic_param_def generic_params
  | Outlives _ => ret tt
  end
(** One iteration of the loop of [visit_generic_param_defs]. *)
with visit_generic_param_def (p : GenericParamDef) {struct p} : M unit :=
  match p with
  | mkGenericParamDef _ (GenericParamDefKind_Type bounds default _) =>
      iterM visit_generic_bound bounds ;;
      match default with
      | Some ty => visit_type ErrorLocation.GenericDefaultBinding ty
      | None => ret tt
      end
  | mkGenericParamDef _ (GenericParamDefKind_Const ty _) =>
      visit_type ErrorLocation.ConstGeneric ty
  | mkGenericParamDef _ (GenericParamDefKind_Lifetime _) => ret tt
  end
with visit_fn_decl (decl : FnDecl) {struct decl} : M unit :=
  match decl with
  | mkFnDecl inputs output _ =>
      (fix go (idx : nat) (l : list (string * Ty)) : M unit :=
         match l with
         | [] => ret tt
         | (n, ty) :: r =>
             (if Nat.eqb idx 0 && String.eqb n "self" then ret tt
              else visit_type (ErrorLocation.ArgumentNamed n) ty) ;;
             go (S idx) r
         end) 0 inputs ;;
      match output with
      | Some o => visit_type ErrorLocation.ReturnValue o
      | None => ret tt
      end
  end.

Definition visit_generic_bounds (bounds : list GenericBound) : M unit :=
  iterM visit_generic_bound bounds.

Definition visit_generic_param_defs (ps : list GenericParamDef) : M unit :=
  iterM visit_generic_param_def ps.

Definition visit_generics (generics : Generics) : M unit :=
  visit_generic_param_defs (params generics) ;;
  iterM (fun where_pred =>
           match where_pred with
           | BoundPredicate type_ bounds generic_params =>
               visit_type ErrorLocation.WhereBound type_ ;;
               visit_generic_bounds bounds ;;
               visit_generic_param_defs generic_params
           | RegionPredicate _ bounds => visit_generic_bounds bounds
           | EqPredicate lhs _ => visit_type ErrorLocation.WhereBound lhs
           end) (where_predicates generics).

End TypeWalk.

(* ------------------------------------------------------------------ *)
(** ** Walking items *)

Section ItemWalk.
Variable v : Visitor.
(** The recursive call [self.visit_item(..)]. *)
Variable visit_item_rec : Path -> Item -> VisibilityCheck -> M unit.

Definition visit_impl (path : Path) (it : Item) : M unit :=
  match inner it with
  | ItemEnum.Impl imp =>
      match blanket_impl imp with
      | Some _ => ret tt
      | None =>
          visit_generics v path (impl_generics imp) ;;
          iterM (fun i => x <- item v i ;; visit_item_rec path x Default) (impl_items imp) ;;
          match impl_trait imp with
          | Some trait_ => visit_type v path ErrorLocation.ImplementedTrait trait_
          | None => ret tt
          end
      end
  | _ => panic "should be passed an Impl item"
  end.

Definition visit_struct (path : Path) (strct : Struct) : M unit :=
  visit_generics v path (struct_generics strct) ;;
  iterM (fun i => field <- item v i ;; visit_item_rec path field Default) (struct_fields strct) ;;
  iterM (fun i => x <- item v i ;; visit_impl path x) (struct_impls strct).

Definition visit_union (path : Path) (unn : Union) : M unit :=
  visit_generics v path (union_generics unn) ;;
  iterM (fun i => field <- item v i ;; visit_item_rec path field Default) (union_fields unn) ;;
  iterM (fun i => x <- item v i ;; visit_impl path x) (union_impls unn).

Definition visit_trait (path : Path) (trt : Trait) : M unit :=
  visit_generics v path (trait_generics trt) ;;
  visit_generic_bounds v path (trait_bounds trt) ;;
  iterM (fun i => x <- item v i ;; visit_item_rec path x Default) (trait_items trt).

Definition visit_variant (path : Path) (variant : Variant.t) : M unit :=
  match variant with
  | Variant.Plain => ret tt
  | Variant.Tuple types => iterM (visit_type v path ErrorLocation.EnumTupleEntry) types
  | Variant.Struct ids => iterM (fun i => x <- item v i ;; visit_item_rec path x Default) ids
  end.

(** The body of [visit_item] after its visibility check: the [match] on
    [item.inner]. *)
Definition visit_item_inner (path : Path) (it : Item) : M unit :=
  match inner it with
  | ItemEnum.AssocConst type_ _ =>
      let path := push path ComponentType.AssocConst it in
      visit_type v path ErrorLocation.StructField type_
  | ItemEnum.AssocType generics bounds default =>
      let path := push path ComponentType.AssocType it in
      (match default with
       | Some typ => visit_type v path ErrorLocation.AssocType typ
       | None => ret tt
       end) ;;
      visit_generic_bounds v path bounds ;;
      visit_generics v path generics
  | ItemEnum.Constant constant =>
      let path := push path ComponentType.Constant it in
      visit_type v path ErrorLocation.Constant (constant_type constant)
  | ItemEnum.Enum enm =>
      let path := push path ComponentType.Enum it in
      visit_generics v path (enum_generics enm) ;;
      iterM (fun i => x <- item v i ;; visit_impl path x) (enum_impls enm) ;;
      iterM (fun i => x <- item v i ;; visit_item_rec path x Default) (variants enm)
  | ItemEnum.ForeignType =>
      panic "unstable Rust feature 'extern_types' is not supported by cargo-check-external-types"
  | ItemEnum.Function function =>
      let path := push path ComponentType.Function it in
      visit_fn_decl v path (function_decl function) ;;
      visit_generics v path (function_generics function)
  | ItemEnum.Import import =>
      match import_id import with
      | Some target_id =>
          (if in_root_crate v target_id then
             target <- item v target_id ;;
             visit_item_rec path target AssumePublic
           else ret tt) ;;
          let path := push_raw path ComponentType.ReExport (import_name import) (span it) in
          check_external v path ErrorLocation.ReExport target_id
      | None => ret tt
      end
  | ItemEnum.Method method =>
      let path := push path ComponentType.Method it in
      visit_fn_decl v path (method_decl method) ;;
      visit_generics v path (method_generics method)
  | ItemEnum.Module module =>
      let path := if negb (is_crate module) then push path ComponentType.Module it else path in
      iterM (fun i =>
               module_item <- item v i ;;
               if N.eqb (crate_id module_item) (root_crate_id v) then
                 visit_item_rec path module_item Default
               else ret tt) (module_items module)
  | ItemEnum.OpaqueTy _ _ =>
      panic "unstable Rust feature 'type_alias_impl_trait' is not supported by cargo-check-external-types"
  | ItemEnum.Static sttc =>
      let path := push path ComponentType.Static it in
      visit_type v path ErrorLocation.Static (static_type sttc)
  | ItemEnum.Struct strct =>
      let path := push path ComponentType.Struct it in
      visit_struct path strct
  | ItemEnum.StructField typ =>
      let path := push path ComponentType.StructField it in
      visit_type v path ErrorLocation.StructField typ
  | ItemEnum.Trait trt =>
      let path := push path ComponentType.Trait it in
      visit_trait path trt
  | ItemEnum.Typedef typedef =>
      let path := push path ComponentType.TypeDef it in
      visit_type v path ErrorLocation.TypeDef (typedef_type typedef) ;;
      visit_generics v path (typedef_generics typedef)
  | ItemEnum.TraitAlias _ _ =>
      panic "unstable Rust feature 'trait_alias' is not supported by cargo-check-external-types"
  | ItemEnum.Union unn =>
      let path := push path ComponentType.Union it in
      visit_union path unn
  | ItemEnum.Variant variant =>
      let path := push path ComponentType.EnumVariant it in
      visit_variant path variant
  | ItemEnum.ExternCrate _ _
  | ItemEnum.Impl _
  | ItemEnum.Macro _
  | ItemEnum.PrimitiveType _
  | ItemEnum.ProcMacro _ _ => ret tt
  end.

End ItemWalk.

(** [Visitor::visit_item]; each nested call spends one unit of [fuel]. *)
Fixpoint visit_item (fuel : nat) (v : Visitor) (path : Path) (it : Item)
    (visibility_check : VisibilityCheck) {struct fuel} : M unit :=
  if VisibilityCheck_eqb visibility_check Default && negb (is_public path it) then ret tt
  else
    visit_item_inner v
      (fun p x c => match fuel with
                    | O => out_of_fuel
                    | S fuel' => visit_item fuel' v p x c
                    end) path it.

(** The modules of the index that are tagged [is_crate], in iteration order. *)
Fixpoint root_modules (idx : list (Id * Item)) : list Module_ :=
  match idx with
  | [] => []
  | (_, it) :: r =>
      match inner it with
      | ItemEnum.Module m => if is_crate m then m :: root_modules r else root_modules r
      | _ => root_modules r
      end
  end.

(** [self.index.values().filter_map(..).find(|module| module.is_crate)] *)
Fixpoint find_root_module (idx : list (Id * Item)) : option Module_ :=
  match idx with
  | [] => None
  | (_, it) :: r =>
      match inner it with
      | ItemEnum.Module m => if is_crate m then Some m else find_root_module r
      | _ => find_root_module r
      end
  end.

(** The loop of [visit_all] over the items of the root module, followed by
    [self.errors.take()]. *)
Definition visit_root_module (fuel : nat) (v : Visitor) (root_module : Module_) : Result ErrSet :=
  let root_path := path_new (root_crate_name v) in
  match iterM (fun i => it <- item v i ;; visit_item fuel v root_path it Default)
          (module_items root_module) es_empty with
  | ROk (_, errors) => ROk errors
  | RErr e => RErr e
  | RPanic e => RPanic e
  | RFuel => RFuel
  end.

Definition visit_all (fuel : nat) (v : Visitor) : Result ErrSet :=
  match find_root_module (index v) with
  | None => RErr "failed to find crate root module"
  | Some root_module => visit_root_module fuel v root_module
  end.

(** [rustdoc_types::Crate], with the fields the visitor reads. *)
Record Crate : Type := mkCrate {
  root : Id;
  crate_index : list (Id * Item);
  crate_paths : list (Id * ItemSummary)
}.

Definition Visitor_new (config : Config) (package : Crate) : Result Visitor :=
  match lookup (root package) (crate_index package) with
  | None => RErr "root not found in index"
  | Some r =>
      match name r with
      | None => RPanic "root should always have a name"
      | Some n => ROk (mkVisitor config (crate_id r) n (crate_index package) (crate_paths package))
      end
  end.

(** A run of the tool on a crate: [Visitor::new(config, package)?.visit_all()]. *)
Definition run (fuel : nat) (config : Config) (package : Crate) : Result ErrSet :=
  match Visitor_new config package with
  | ROk v => visit_all fuel v
  | RErr e => RErr e
  | RPanic e => RPanic e
  | RFuel => RFuel
  end.

(* ------------------------------------------------------------------ *)
(** ** Example crates *)

Module Examples.
Open Scope string_scope.

Definition no_generics : Generics := mkGenerics [] [].

(** A reference to the external type [external_crate::Widget]. *)
Definition widget : Ty := ResolvedPath "Widget" "1:5" None [].
(** A reference to the external type [external_crate::Gadget]. *)
Definition gadget : Ty := ResolvedPath "Gadget" "1:7" None [].

Definition summaries : list (Id * ItemSummary) :=
  [("1:5", mkItemSummary 1 ["external_crate"; "Widget"]);
   ("1:7", mkItemSummary 1 ["external_crate"; "Gadget"]);
   ("0:3", mkItemSummary 0 ["mylib"; "inner"; "Inner"])].

(** A policy that allows the crate's own types only. *)
Definition own_types_only : Config :=
  mkConfig (fun _ tn => String.prefix "mylib::" tn).

Definition root_item (items : list Id) : Item :=
  mkItem "0:0" 0 (Some "mylib") None Visibility.Public
    (ItemEnum.Module (mkModule true items false)).

(** [pub fn f(x: external_crate::Widget)] *)
Definition f_item : Item :=
  mkItem "0:1" 0 (Some "f") None Visibility.Public
    (ItemEnum.Function (mkFunction (mkFnDecl [("x", widget)] None false) no_generics)).

(** [fn g(x: external_crate::Widget)], private *)
Definition g_item : Item :=
  mkItem "0:6" 0 (Some "g") None Visibility.Default
    (ItemEnum.Function (mkFunction (mkFnDecl [("x", widget)] None false) no_generics)).

(** [struct Inner { pub field: external_crate::Gadget }], private *)
Definition inner_struct : Item :=
  mkItem "0:3" 0 (Some "Inner") None Visibility.Default
    (ItemEnum.Struct (mkStruct no_generics false ["0:4"] [])).

Definition inner_field : Item :=
  mkItem "0:4" 0 (Some "field") None Visibility.Public (ItemEnum.StructField gadget).

(** [pub use inner::Inner as Gadget;] *)
Definition reexport : Item :=
  mkItem "0:2" 0 None None Visibility.Public
    (ItemEnum.Import (mkImport "inner::Inner" "Gadget" (Some "0:3") false)).

(** [impl<T: Into<external_crate::Widget>> external_crate::Widget-trait for T]:
    a blanket implementation whose trait and members name external types. *)
Definition blanket : Item :=
  mkItem "0:7" 0 None None Visibility.Default
    (ItemEnum.Impl (mkImpl false no_generics [] (Some widget) (Generic "T") ["0:1"] false false
       (Some (Generic "T")))).

(** A public extern type, an unstable construct. *)
Definition foreign : Item :=
  mkItem "0:8" 0 (Some "Opaque") None Visibility.Public ItemEnum.ForeignType.

Definition index_mylib : list (Id * Item) :=
  [("0:0", root_item ["0:1"; "0:6"; "0:3"; "0:2"; "0:7"]);
   ("0:1", f_item); ("0:6", g_item); ("0:3", inner_struct); ("0:4", inner_field);
   ("0:2", reexport); ("0:7", blanket); ("0:8", foreign)].

Definition mylib : Visitor := mkVisitor own_types_only 0 "mylib" index_mylib summaries.

Definition root_path : Path := path_new "mylib".

(** A second module tagged as crate root, with no items. *)
Definition other_root : Item :=
  mkItem "0:9" 0 (Some "other") None Visibility.Public
    (ItemEnum.Module (mkModule true [] false)).

(** The same map in two iteration orders, with two root modules. *)
Definition index_two_roots : list (Id * Item) :=
  [("0:0", root_item ["0:1"]); ("0:1", f_item); ("0:9", other_root)].
Definition index_two_roots' : list (Id * Item) :=
  [("0:9", other_root); ("0:0", root_item ["0:1"]); ("0:1", f_item)].

Definition crate_two_roots : Crate := mkCrate "0:0" index_two_roots summaries.
Definition crate_two_roots' : Crate := mkCrate "0:0" index_two_roots' summaries.

Definition crate_mylib : Crate := mkCrate "0:0" index_mylib summaries.
Definition crate_mylib_rev : Crate := mkCrate "0:0" (rev index_mylib) summaries.

Definition widget_error : ValidationError :=
  mkValidationError "external_crate::Widget" (ErrorLocation.ArgumentNamed "x") "mylib::f" None.

End Examples.

(** Further inputs: an external re-export, a module listing a copy of an
    external type, an index missing an item, crates whose root is missing
    or unnamed. *)
Module MoreExamples.
Import Examples.
Open Scope string_scope.

(** [pub use external_crate::Widget;] *)
Definition widget_reexport : Item :=
  mkItem "0:11" 0 None None Visibility.Public
    (ItemEnum.Import (mkImport "external_crate::Widget" "Widget" (Some "1:5") false)).

(** The copy of [external_crate::Widget] that the index lists in a module
    re-exporting it, with the external crate's id. *)
Definition widget_copy : Item :=
  mkItem "1:5" 1 (Some "Widget") None Visibility.Public
    (ItemEnum.Struct (mkStruct no_generics false [] [])).

Definition prelude_module : Item :=
  mkItem "0:12" 0 (Some "prelude") None Visibility.Public
    (ItemEnum.Module (mkModule false ["1:5"] false)).

Definition with_copy : Visitor :=
  mkVisitor own_types_only 0 "mylib" [("0:12", prelude_module); ("1:5", widget_copy)] summaries.

(** A root module listing [g], which the index does not hold. *)
Definition missing_g : Visitor :=
  mkVisitor own_types_only 0 "mylib" [("0:0", root_item ["0:1"; "0:6"]); ("0:1", f_item)] summaries.

(** The error [mylib] reports for [Inner::field]. *)
Definition gadget_error : ValidationError :=
  mkValidationError "external_crate::Gadget" ErrorLocation.StructField "mylib::Inner::field" None.

Definition crate_no_root : Crate := mkCrate "9:9" index_mylib summaries.

Definition crate_unnamed_root : Crate :=
  mkCrate "0:0"
    [("0:0", mkItem "0:0" 0 None None Visibility.Public (ItemEnum.Module (mkModule true [] false)))]
    summaries.

End MoreExamples.

(* ------------------------------------------------------------------ *)
(** ** The orders are total *)

Lemma N_cmp_ok : cmp_ok N.compare.
Proof.
  constructor.
  - intros x y. apply N.compare_eq_iff.
  - intros x y. apply N.compare_antisym.
  - intros x y z H1 H2. rewrite N.compare_lt_iff in *. lia.
Qed.

Lemma CompOpp_Eq (c : comparison) : CompOpp c = Eq <-> c = Eq.
Proof. destruct c; simpl; split; congruence. Qed.

Lemma lex_cmp_ok {A B : Type} (ca : A -> A -> comparison) (cb : B -> B -> comparison) :
  cmp_ok ca -> cmp_ok cb -> cmp_ok (lex_cmp ca cb).
Proof.
  intros [Ea Sa Ta] [Eb Sb Tb]. constructor.
  - intros [a1 b1] [a2 b2]; unfold lex_cmp; simpl.
    destruct (ca a1 a2) eqn:Ha.
    + apply Ea in Ha; subst. rewrite Eb. split; [intros ->|intros H; inversion H]; auto.
    + split; [discriminate|]. intros H; inversion H; subst.
      assert (ca a2 a2 = Eq) by (apply Ea; auto). congruence.
    + split; [discriminate|]. intros H; inversion H; subst.
      assert (ca a2 a2 = Eq) by (apply Ea; auto). congruence.
  - intros [a1 b1] [a2 b2]; unfold lex_cmp; simpl.
    rewrite (Sa a1 a2). destruct (ca a1 a2); simpl; auto.
  - intros [a1 b1] [a2 b2] [a3 b3]; unfold lex_cmp; simpl.
    destruct (ca a1 a2) eqn:H12; try discriminate; destruct (ca a2 a3) eqn:H23; try discriminate.
    + apply Ea in H12; apply Ea in H23; subst.
      assert (ca a3 a3 = Eq) by (apply Ea; auto). rewrite H. eauto.
    + apply Ea in H12; subst. rewrite H23. auto.
    + apply Ea in H23; subst. rewrite H12. auto.
    + rewrite (Ta _ _ _ H12 H23). auto.
Qed.

Lemma list_cmp_ok {A : Type} (c : A -> A -> comparison) :
  cmp_ok c -> cmp_ok (list_cmp c).
Proof.
  intros [E S T]. constructor.
  - induction x as [|a r IH]; destruct y as [|b r']; simpl;
      try (split; congruence).
    destruct (c a b) eqn:Hab.
    + apply E in Hab; subst. rewrite IH. split; [intros ->|intros H; inversion H]; auto.
    + split; [discriminate|]. intros H; inversion H; subst.
      assert (c b b = Eq) by (apply E; auto). congruence.
    + split; [discriminate|]. intros H; inversion H; subst.
      assert (c b b = Eq) by (apply E; auto). congruence.
  - induction x as [|a r IH]; destruct y as [|b r']; simpl; auto.
    rewrite (S a b). destruct (c a b); simpl; auto.
  - induction x as [|a r IH]; destruct y as [|b r']; destruct z as [|d r'']; simpl;
      try discriminate; auto.
    destruct (c a b) eqn:Hab; try discriminate; destruct (c b d) eqn:Hbd; try discriminate.
    + apply E in Hab; apply E in Hbd; subst.
      assert (c d d = Eq) by (apply E; auto). rewrite H. eauto.
    + apply E in Hab; subst. rewrite Hbd. auto.
    + apply E in Hbd; subst. rewrite Hab. auto.
    + rewrite (T _ _ _ Hab Hbd). auto.
Qed.

Lemma option_cmp_ok {A : Type} (c : A -> A -> comparison) :
  cmp_ok c -> cmp_ok (option_cmp c).
Proof.
  intros [E S T]. constructor.
  - intros [x|] [y|]; simpl; try (split; congruence).
    rewrite E. split; [intros ->|intros H; inversion H]; auto.
  - intros [x|] [y|]; simpl; auto.
  - intros [x|] [y|] [z|]; simpl; try discriminate; eauto.
Qed.

Lemma via_cmp_ok {A B : Type} (f : A -> B) (c : B -> B -> comparison) :
  (forall x y, f x = f y -> x = y) -> cmp_ok c -> cmp_ok (via_cmp f c).
Proof.
  intros Hf [E S T]. unfold via_cmp. constructor.
  - intros x y. rewrite E. split; [apply Hf|intros ->; auto].
  - intros x y. apply S.
  - intros x y z. apply T.
Qed.

Lemma string_key_inj (s t : string) : string_key s = string_key t -> s = t.
Proof.
  unfold string_key. intros H.
  rewrite <- (string_of_list_ascii_of_string s), <- (string_of_list_ascii_of_string t).
  f_equal. revert H. generalize (list_ascii_of_string t).
  induction (list_ascii_of_string s) as [|a r IH]; intros [|b r'] H; simpl in H;
    try discriminate; auto.
  injection H as Hab Hr.
  rewrite <- (ascii_N_embedding a), <- (ascii_N_embedding b), Hab. f_equal. auto.
Qed.

Lemma string_cmp_ok : cmp_ok string_cmp.
Proof. apply via_cmp_ok; [apply string_key_inj | apply list_cmp_ok, N_cmp_ok]. Qed.

Lemma span_cmp_ok : cmp_ok span_cmp.
Proof.
  apply via_cmp_ok.
  - intros [f1 b1 e1] [f2 b2 e2]; unfold span_key; simpl; intros H; inversion H; auto.
  - apply lex_cmp_ok; [apply string_cmp_ok|].
    apply lex_cmp_ok; apply lex_cmp_ok; apply N_cmp_ok.
Qed.

Lemma ErrorLocation_key_inj (x y : ErrorLocation.t) :
  ErrorLocation.key x = ErrorLocation.key y -> x = y.
Proof. destruct x, y; simpl; intros H; inversion H; auto. Qed.

Lemma ErrorLocation_cmp_ok : cmp_ok ErrorLocation.cmp.
Proof.
  apply via_cmp_ok; [apply ErrorLocation_key_inj|].
  apply lex_cmp_ok; [apply N_cmp_ok | apply string_cmp_ok].
Qed.

Lemma ve_cmp_ok : cmp_ok ve_cmp.
Proof.
  apply via_cmp_ok.
  - intros [a b c d] [a' b' c' d']; unfold ve_key; simpl; intros H; inversion H; auto.
  - apply lex_cmp_ok; [apply string_cmp_ok|].
    apply lex_cmp_ok; [apply ErrorLocation_cmp_ok|].
    apply lex_cmp_ok; [apply string_cmp_ok|].
    apply option_cmp_ok, span_cmp_ok.
Qed.

Open Scope string_scope.

(* ------------------------------------------------------------------ *)
(** ** Visibility *)

(** The three contexts in which [is_public] looks at the enclosing
    component: a variant under an enum, a struct field under an enum
    variant, any item under a trait. *)
Definition inherits_visibility (path : Path) (it : Item) : Prop :=
  ((exists vr, inner it = ItemEnum.Variant vr) /\ last_type path = Some ComponentType.Enum) \/
  ((exists t, inner it = ItemEnum.StructField t) /\ last_type path = Some ComponentType.EnumVariant) \/
  last_type path = Some ComponentType.Trait.

(** C1 (counterexample): an enum variant whose own marker is [Crate] is not
    public under its enum, so the marker does matter. *)
Lemma C1_crate_variant_not_public :
  let path := [mkComponent ComponentType.Crate "mylib" None; mkComponent ComponentType.Enum "E" None] in
  let variant := mkItem "0:5" 0 (Some "A") None Visibility.Crate (ItemEnum.Variant Variant.Plain) in
  inherits_visibility path variant /\ is_public path variant = false.
Proof.
  simpl. split; [left; split; [eexists; reflexivity | reflexivity] | reflexivity].
Qed.

(** C1 (amended): in the three inheriting contexts (variant under an enum,
    struct field under an enum variant, any item under a trait), [is_public]
    is true exactly when the item's own marker is [Public] or [Default]; a
    [Crate] or [Restricted] marker makes it not public there. *)
Theorem is_public_inherited (path : Path) (it : Item) :
  inherits_visibility path it ->
  is_public path it =
    match visibility it with
    | Visibility.Public | Visibility.Default => true
    | Visibility.Crate | Visibility.Restricted _ _ => false
    end.
Proof.
  unfold is_public, inherits_visibility.
  intros [[[vr Hi] Hl] | [[[t Hi] Hl] | Hl]];
    destruct (visibility it); auto; rewrite ?Hi, Hl; auto.
  destruct (inner it); auto.
Qed.

Lemma is_public_inherited_witness :
  is_public [mkComponent ComponentType.Crate "mylib" None; mkComponent ComponentType.Enum "E" None]
    (mkItem "0:5" 0 (Some "A") None Visibility.Default (ItemEnum.Variant Variant.Plain)) = true.
Proof.
  apply (is_public_inherited
           [mkComponent ComponentType.Crate "mylib" None; mkComponent ComponentType.Enum "E" None]
           (mkItem "0:5" 0 (Some "A") None Visibility.Default (ItemEnum.Variant Variant.Plain))).
  left. split; [eexists; reflexivity | reflexivity].
Defined.

(* ------------------------------------------------------------------ *)
(** ** The external-reference check *)

(** C3: [check_external] records an unapproved-external-type error, with
    the resolved name, the usage location, the rendered path and the last
    span of the path, exactly when the name resolves and the policy does not
    allow it; an unresolved id of the root crate is accepted silently; an
    unresolved id of another crate panics. *)
Theorem check_external_cases (v : Visitor) (path : Path) (what : ErrorLocation.t) (i : Id)
    (s : ErrSet) :
  check_external v path what i s =
    match type_name v i with
    | Some tn =>
        if allows_type (config v) (root_crate_name v) tn then ROk (tt, s)
        else ROk (tt, es_insert (mkValidationError tn what (path_to_string path) (last_span path)) s)
    | None =>
        if in_root_crate v i then ROk (tt, s)
        else RPanic "A type is referencing another type that is not in the index, and that type is from another crate."
    end.
Proof.
  unfold check_external, in_root_crate.
  destruct (type_name v i) as [tn|].
  - destruct (allows_type (config v) (root_crate_name v) tn); reflexivity.
  - destruct (String.prefix _ i); reflexivity.
Qed.

(* ------------------------------------------------------------------ *)
(** ** [visit_item] *)

Definition passes_visibility_check (path : Path) (it : Item) (c : VisibilityCheck) : Prop :=
  c = AssumePublic \/ is_public path it = true.

Lemma visit_item_unfold (fuel : nat) (v : Visitor) (path : Path) (it : Item) (c : VisibilityCheck) :
  passes_visibility_check path it c ->
  visit_item fuel v path it c =
    visit_item_inner v
      (fun p x c' => match fuel with
                     | O => out_of_fuel
                     | S fuel' => visit_item fuel' v p x c'
                     end) path it.
Proof.
  intros [-> | Hp]; destruct fuel; simpl; auto;
    destruct c; simpl; rewrite ?Hp; auto.
Qed.

(** C4: a visited re-export [pub use] with a target first visits the target
    with [AssumePublic] when the target is in the root crate (after looking
    it up in the index), and then, whatever the target's crate, runs the
    external-reference check on the target id with the location [ReExport]
    at the path extended by a re-export component. *)
Theorem visit_import (fuel : nat) (v : Visitor) (path : Path) (it : Item) (c : VisibilityCheck)
    (import : Import) (target_id : Id) (s : ErrSet) :
  inner it = ItemEnum.Import import ->
  import_id import = Some target_id ->
  passes_visibility_check path it c ->
  visit_item (S fuel) v path it c s =
    ((if in_root_crate v target_id then
        target <- item v target_id ;;
        visit_item fuel v path target AssumePublic
      else ret tt) ;;
     check_external v (push_raw path ComponentType.ReExport (import_name import) (span it))
       ErrorLocation.ReExport target_id) s.
Proof.
  intros Hi Ht Hc. rewrite (visit_item_unfold _ _ _ _ _ Hc).
  unfold visit_item_inner. rewrite Hi, Ht. reflexivity.
Qed.

Lemma visit_import_witness :
  visit_item 5 Examples.mylib Examples.root_path Examples.reexport Default es_empty =
    ((target <- item Examples.mylib "0:3" ;;
      visit_item 4 Examples.mylib Examples.root_path target AssumePublic) ;;
     check_external Examples.mylib
       (push_raw Examples.root_path ComponentType.ReExport "Gadget" None)
       ErrorLocation.ReExport "0:3") es_empty.
Proof.
  apply (visit_import 4 Examples.mylib Examples.root_path Examples.reexport Default
           (mkImport "inner::Inner" "Gadget" (Some "0:3") false) "0:3" es_empty);
    [reflexivity | reflexivity | right; reflexivity].
Defined.

(** C5: under the default visibility check, an item that is not public is
    not visited: [visit_item] returns at once and the error set is
    unchanged. *)
Theorem visit_item_not_public (fuel : nat) (v : Visitor) (path : Path) (it : Item) (s : ErrSet) :
  is_public path it = false ->
  visit_item fuel v path it Default s = ROk (tt, s).
Proof.
  intros H. destruct fuel; simpl; rewrite H; reflexivity.
Qed.

Lemma visit_item_not_public_witness :
  visit_item 5 Examples.mylib Examples.root_path Examples.g_item Default es_empty = ROk (tt, es_empty).
Proof. apply visit_item_not_public. reflexivity. Defined.

(** C6: a blanket implementation is skipped by [visit_impl]: its generics,
    member items and implemented trait are not visited and the error set is
    unchanged, whatever the recursive visit of items does. *)
Theorem visit_impl_blanket (v : Visitor) (visit_item_rec : Path -> Item -> VisibilityCheck -> M unit)
    (path : Path) (it : Item) (imp : Impl) (b : Ty) (s : ErrSet) :
  inner it = ItemEnum.Impl imp ->
  blanket_impl imp = Some b ->
  visit_impl v visit_item_rec path it s = ROk (tt, s).
Proof.
  intros Hi Hb. unfold visit_impl. rewrite Hi, Hb. reflexivity.
Qed.

Lemma visit_impl_blanket_witness :
  visit_impl Examples.mylib (visit_item 5 Examples.mylib) Examples.root_path Examples.blanket es_empty
    = ROk (tt, es_empty).
Proof.
  apply (visit_impl_blanket _ _ _ _
           (mkImpl false Examples.no_generics [] (Some Examples.widget) (Generic "T") ["0:1"]
              false false (Some (Generic "T"))) (Generic "T")); reflexivity.
Defined.

(** The kinds [visit_item] rejects as unstable Rust features. *)
Definition is_unstable_kind (e : ItemEnum.t) : bool :=
  match e with
  | ItemEnum.ForeignType | ItemEnum.OpaqueTy _ _ | ItemEnum.TraitAlias _ _ => true
  | _ => false
  end.

(** C9: visiting an extern type, an opaque type or a trait alias panics. *)
Theorem visit_item_unstable (fuel : nat) (v : Visitor) (path : Path) (it : Item) (c : VisibilityCheck)
    (s : ErrSet) :
  is_unstable_kind (inner it) = true ->
  passes_visibility_check path it c ->
  exists msg, visit_item fuel v path it c s = RPanic msg.
Proof.
  intros Hk Hc. rewrite (visit_item_unfold _ _ _ _ _ Hc). unfold visit_item_inner.
  destruct (inner it); try discriminate; eexists; reflexivity.
Qed.

Lemma visit_item_unstable_witness :
  exists msg, visit_item 5 Examples.mylib Examples.root_path Examples.foreign Default es_empty
                = RPanic msg.
Proof. apply visit_item_unstable; [reflexivity | right; reflexivity]. Defined.

(** The kinds whose arm of [visit_item] is empty. *)
Definition is_noop_kind (e : ItemEnum.t) : bool :=
  match e with
  | ItemEnum.ExternCrate _ _ | ItemEnum.Impl _ | ItemEnum.Macro _
  | ItemEnum.PrimitiveType _ | ItemEnum.ProcMacro _ _ => true
  | _ => false
  end.

(** C10: [visit_item] on an implementation block, an extern crate, a macro,
    a primitive type or a procedural macro does nothing and leaves the
    error set unchanged; implementation blocks are only visited through
    [visit_impl]. *)
Theorem visit_item_noop (fuel : nat) (v : Visitor) (path : Path) (it : Item) (c : VisibilityCheck)
    (s : ErrSet) :
  is_noop_kind (inner it) = true ->
  visit_item fuel v path it c s = ROk (tt, s).
Proof.
  intros Hk. destruct fuel; simpl;
    (destruct (VisibilityCheck_eqb c Default && negb (is_public path it)); [reflexivity|]);
    unfold visit_item_inner; destruct (inner it); try discriminate; reflexivity.
Qed.

Lemma visit_item_noop_witness :
  visit_item 5 Examples.mylib Examples.root_path Examples.blanket AssumePublic es_empty
    = ROk (tt, es_empty).
Proof. apply visit_item_noop. reflexivity. Defined.

(* ------------------------------------------------------------------ *)
(** ** The error set *)

Lemma ve_cmp_refl (e : ValidationError) : ve_cmp e e = Eq.
Proof. apply (cmp_eq_iff _ ve_cmp_ok). reflexivity. Qed.

Lemma es_insert_idem (e : ValidationError) (s : ErrSet) :
  es_insert e (es_insert e s) = es_insert e s.
Proof.
  induction s as [|x r IH]; simpl.
  - rewrite ve_cmp_refl. reflexivity.
  - destruct (ve_cmp e x) eqn:H; simpl.
    + rewrite H. reflexivity.
    + rewrite ve_cmp_refl. reflexivity.
    + rewrite H, IH. reflexivity.
Qed.

Lemma es_insert_incl (e : ValidationError) (s : ErrSet) : incl s (es_insert e s).
Proof.
  unfold incl. induction s as [|x r IH]; simpl; intros y Hy; [destruct Hy|].
  destruct (ve_cmp e x); simpl in *; firstorder.
Qed.

Lemma ve_lt_antisym (a b : ValidationError) : ve_cmp a b = Gt -> ve_cmp b a = Lt.
Proof. intros H. rewrite (cmp_antisym _ ve_cmp_ok), H. reflexivity. Qed.

Lemma es_insert_sorted (e : ValidationError) (s : ErrSet) :
  es_sorted s -> es_sorted (es_insert e s).
Proof.
  unfold es_sorted. induction s as [|x r IH]; simpl; intros Hs.
  - repeat constructor.
  - apply Sorted_inv in Hs as [Hr Hx].
    destruct (ve_cmp e x) eqn:H.
    + constructor; auto.
    + constructor; auto.
    + constructor; [apply IH; auto|].
      destruct r as [|y r']; simpl.
      * constructor. apply ve_lt_antisym; auto.
      * apply HdRel_inv in Hx. destruct (ve_cmp e y); constructor; auto.
        apply ve_lt_antisym; auto.
Qed.

Lemma ve_eqb_iff (a b : ValidationError) : ve_eqb a b = true <-> a = b.
Proof.
  unfold ve_eqb. rewrite <- (cmp_eq_iff _ ve_cmp_ok a b).
  destruct (ve_cmp a b); split; congruence.
Qed.

Lemma es_count_none (e : ValidationError) (l : ErrSet) :
  (forall y, In y l -> ve_cmp e y = Lt) -> es_count e l = 0.
Proof.
  unfold es_count. induction l as [|y r IH]; simpl; intros H; auto.
  unfold ve_eqb at 1. rewrite (H y (or_introl eq_refl)). apply IH. auto.
Qed.

Lemma ve_eqb_refl (e : ValidationError) : ve_eqb e e = true.
Proof. apply ve_eqb_iff. reflexivity. Qed.

Lemma es_count_cons (e y : ValidationError) (l : ErrSet) :
  es_count e (y :: l) = (if ve_eqb e y then 1 else 0) + es_count e l.
Proof. unfold es_count. simpl. destruct (ve_eqb e y); reflexivity. Qed.

Lemma es_count_insert (e : ValidationError) (s : ErrSet) :
  es_sorted s -> es_count e (es_insert e s) = 1.
Proof.
  intros Hs. apply Sorted_StronglySorted in Hs;
    [|intros a b c; apply (cmp_lt_trans _ ve_cmp_ok)].
  induction s as [|x r IH]; simpl.
  - rewrite es_count_cons, ve_eqb_refl. reflexivity.
  - apply StronglySorted_inv in Hs as [Hr Hx]. rewrite Forall_forall in Hx.
    destruct (ve_cmp e x) eqn:H.
    + apply (cmp_eq_iff _ ve_cmp_ok) in H. subst x.
      rewrite es_count_cons, ve_eqb_refl, es_count_none; auto.
    + rewrite es_count_cons, ve_eqb_refl, es_count_none; auto.
      intros y [<-|Hy]; auto.
      apply (cmp_lt_trans _ ve_cmp_ok) with x; auto.
    + rewrite es_count_cons. unfold ve_eqb at 1. rewrite H. apply IH. auto.
Qed.

(** The error set after inserting the errors of [l] one by one. *)
Definition es_of (l : list ValidationError) : ErrSet :=
  fold_left (fun s e => es_insert e s) l es_empty.

Lemma es_of_sorted (l : list ValidationError) : es_sorted (es_of l).
Proof.
  unfold es_of. assert (H : es_sorted es_empty) by constructor. revert H.
  generalize es_empty. induction l as [|e r IH]; simpl; auto.
  intros s Hs. apply IH, es_insert_sorted, Hs.
Qed.

(** C7: [add_error] is idempotent (adding the same error twice gives the
    same set as adding it once), never removes an entry, and an error set
    built by insertions holds exactly one entry equal to an added error. *)
Theorem add_error_idempotent (e : ValidationError) (s : ErrSet) (l : list ValidationError) :
  (add_error e ;; add_error e) s = add_error e s /\
  incl s (es_insert e s) /\
  es_count e (es_insert e (es_of l)) = 1.
Proof.
  split; [|split].
  - unfold bind, add_error, ret. rewrite es_insert_idem. reflexivity.
  - apply es_insert_incl.
  - apply es_count_insert, es_of_sorted.
Qed.

(* ------------------------------------------------------------------ *)
(** ** Choosing the root module *)

Definition root_of (p : Id * Item) : list Module_ :=
  match inner (snd p) with
  | ItemEnum.Module m => if is_crate m then [m] else []
  | _ => []
  end.

Lemma root_modules_flat_map (idx : list (Id * Item)) : root_modules idx = flat_map root_of idx.
Proof.
  induction idx as [|[k it] r IH]; simpl; auto.
  unfold root_of; simpl. destruct (inner it); auto. destruct (is_crate m); simpl; f_equal; auto.
Qed.

Lemma find_root_module_hd (idx : list (Id * Item)) :
  find_root_module idx = hd_error (root_modules idx).
Proof.
  induction idx as [|[k it] r IH]; simpl; auto.
  destruct (inner it); auto. destruct (is_crate m); auto.
Qed.

(** C2 (amended): [visit_all] fails when no module is tagged as the crate
    root; when one or more are, it does not fail for that reason but visits
    the first of them in the index's iteration order. *)
Theorem visit_all_root (fuel : nat) (v : Visitor) :
  (root_modules (index v) = [] -> visit_all fuel v = RErr "failed to find crate root module") /\
  (forall m rest, root_modules (index v) = m :: rest -> visit_all fuel v = visit_root_module fuel v m).
Proof.
  unfold visit_all. rewrite find_root_module_hd. split.
  - intros ->. reflexivity.
  - intros m rest ->. reflexivity.
Qed.

Lemma visit_all_root_witness :
  visit_all 10 (mkVisitor Examples.own_types_only 0 "mylib" Examples.index_two_roots Examples.summaries)
  = visit_root_module 10
      (mkVisitor Examples.own_types_only 0 "mylib" Examples.index_two_roots Examples.summaries)
      (mkModule true ["0:1"] false).
Proof.
  apply (proj2 (visit_all_root 10
    (mkVisitor Examples.own_types_only 0 "mylib" Examples.index_two_roots Examples.summaries))
    (mkModule true ["0:1"] false) [mkModule true [] false]).
  reflexivity.
Defined.

(** C2 (counterexample): with two modules tagged as crate root, a run does
    not fail; it reports the errors of the first root module. *)
Lemma C2_two_roots_no_error :
  length (root_modules (crate_index Examples.crate_two_roots)) = 2 /\
  run 10 Examples.own_types_only Examples.crate_two_roots = ROk [Examples.widget_error].
Proof. split; vm_compute; reflexivity. Qed.

(* ------------------------------------------------------------------ *)
(** ** Iteration order of the index *)

Lemma lookup_perm {V : Type} (l1 l2 : list (Id * V)) :
  Permutation l1 l2 -> NoDup (map fst l1) -> forall k, lookup k l1 = lookup k l2.
Proof.
  induction 1 as [|[k' x] l l' _ IH|[ky y] [kx x] l|l l' l'' H1 IH1 _ IH2]; simpl; intros Hd k; auto.
  - inversion Hd; subst. rewrite IH; auto.
  - inversion Hd as [|? ? Hn Hd']; subst. simpl in Hn.
    destruct (String.eqb_spec k ky), (String.eqb_spec k kx); subst; auto.
    exfalso. apply Hn. left. reflexivity.
  - rewrite IH1; auto. apply IH2.
    apply (Permutation_NoDup (Permutation_map fst H1) Hd).
Qed.

Lemma root_modules_perm (l1 l2 : list (Id * Item)) :
  Permutation l1 l2 -> Permutation (root_modules l1) (root_modules l2).
Proof.
  intros H. rewrite !root_modules_flat_map. apply (Permutation_flat_map root_of). exact H.
Qed.

Lemma find_root_module_perm (l1 l2 : list (Id * Item)) :
  Permutation l1 l2 -> length (root_modules l1) <= 1 ->
  find_root_module l1 = find_root_module l2.
Proof.
  intros Hp Hl. rewrite !find_root_module_hd.
  pose proof (root_modules_perm _ _ Hp) as Hr.
  destruct (root_modules l1) as [|m [|m' r]]; simpl in Hl.
  - apply Permutation_nil in Hr. rewrite <- Hr. reflexivity.
  - apply Permutation_length_1_inv in Hr. rewrite Hr. reflexivity.
  - lia.
Qed.

Section SameMap.
Variables (cfg : Config) (rid : N) (rname : string) (pths : list (Id * ItemSummary)).
Variables (idx1 idx2 : list (Id * Item)).
Hypothesis same_lookup : forall k, lookup k idx1 = lookup k idx2.

Let v1 := mkVisitor cfg rid rname idx1 pths.
Let v2 := mkVisitor cfg rid rname idx2 pths.

Lemma item_same_map : item v1 = item v2.
Proof. extensionality k. unfold item; simpl. rewrite same_lookup. reflexivity. Qed.

Lemma visit_item_inner_same_map (rec : Path -> Item -> VisibilityCheck -> M unit) :
  visit_item_inner v1 rec = visit_item_inner v2 rec.
Proof.
  unfold visit_item_inner, visit_struct, visit_union, visit_trait, visit_variant, visit_impl.
  rewrite item_same_map. reflexivity.
Qed.

Lemma visit_item_same_map (fuel : nat) : visit_item fuel v1 = visit_item fuel v2.
Proof.
  induction fuel as [|fuel IH];
    extensionality p; extensionality it; extensionality c; simpl.
  - rewrite visit_item_inner_same_map. reflexivity.
  - rewrite IH, visit_item_inner_same_map. reflexivity.
Qed.

Lemma visit_root_module_same_map (fuel : nat) (m : Module_) :
  visit_root_module fuel v1 m = visit_root_module fuel v2 m.
Proof.
  unfold visit_root_module. rewrite item_same_map, visit_item_same_map. reflexivity.
Qed.

End SameMap.

(* ------------------------------------------------------------------ *)
(** ** The walk keeps the error set ordered *)

Definition keeps_sorted {A : Type} (m : M A) : Prop :=
  forall s a s', es_sorted s -> m s = ROk (a, s') -> es_sorted s'.

Lemma ks_ret {A : Type} (a : A) : keeps_sorted (ret a).
Proof. intros s x s' Hs H. inversion H; subst. exact Hs. Qed.

Lemma ks_bind {A B : Type} (m : M A) (k : A -> M B) :
  keeps_sorted m -> (forall a, keeps_sorted (k a)) -> keeps_sorted (bind m k).
Proof.
  intros Hm Hk s b s' Hs. unfold bind.
  destruct (m s) as [[a s1]| | |] eqn:E; try discriminate.
  apply Hk. exact (Hm _ _ _ Hs E).
Qed.

Lemma ks_fail {A : Type} (msg : string) : keeps_sorted (@fail A msg).
Proof. intros s a s' _ H. discriminate. Qed.

Lemma ks_panic {A : Type} (msg : string) : keeps_sorted (@panic A msg).
Proof. intros s a s' _ H. discriminate. Qed.

Lemma ks_out_of_fuel {A : Type} : keeps_sorted (@out_of_fuel A).
Proof. intros s a s' _ H. discriminate. Qed.

Lemma ks_add_error (e : ValidationError) : keeps_sorted (add_error e).
Proof. intros s a s' Hs H. inversion H; subst. apply es_insert_sorted, Hs. Qed.

Lemma ks_check_external (v : Visitor) (path : Path) (what : ErrorLocation.t) (i : Id) :
  keeps_sorted (check_external v path what i).
Proof.
  unfold check_external. destruct (type_name v i).
  - destruct (negb _); [apply ks_add_error | apply ks_ret].
  - destruct (negb _); [apply ks_panic | apply ks_ret].
Qed.

Lemma ks_item (v : Visitor) (i : Id) : keeps_sorted (item v i).
Proof. unfold item. destruct (lookup i (index v)); [apply ks_ret | apply ks_fail]. Qed.

Lemma ks_iterM {A : Type} (f : A -> M unit) (l : list A) :
  Forall (fun x => keeps_sorted (f x)) l -> keeps_sorted (iterM f l).
Proof.
  induction 1; simpl; [apply ks_ret|]. apply ks_bind; auto.
Qed.

Lemma ks_iterM_all {A : Type} (f : A -> M unit) (l : list A) :
  (forall x, keeps_sorted (f x)) -> keeps_sorted (iterM f l).
Proof. intros H. apply ks_iterM, Forall_forall. auto. Qed.

Ltac ks_step :=
  match goal with
  | |- keeps_sorted (bind _ _) => apply ks_bind; intros
  | |- keeps_sorted (ret _) => apply ks_ret
  | |- keeps_sorted (fail _) => apply ks_fail
  | |- keeps_sorted (panic _) => apply ks_panic
  | |- keeps_sorted out_of_fuel => apply ks_out_of_fuel
  | |- keeps_sorted (check_external _ _ _ _) => apply ks_check_external
  | |- keeps_sorted (item _ _) => apply ks_item
  | |- keeps_sorted (if ?b then _ else _) => destruct b
  | |- keeps_sorted (match ?x with _ => _ end) => destruct x
  end.

Ltac ks_list rec :=
  let go := fresh "go" in
  let x := fresh "x" in
  let r := fresh "r" in
  apply ks_iterM;
  match goal with |- Forall _ ?l => revert l end;
  fix go 1; intros [|x r]; constructor; [apply rec | apply go].

Fixpoint visit_type_ks (v : Visitor) (path : Path) (what : ErrorLocation.t) (t : Ty) {struct t} :
  keeps_sorted (visit_type v path what t)
with visit_generic_args_ks (v : Visitor) (path : Path) (a : GenericArgs) {struct a} :
  keeps_sorted (visit_generic_args v path a)
with visit_generic_bound_ks (v : Visitor) (path : Path) (b : GenericBound) {struct b} :
  keeps_sorted (visit_generic_bound v path b)
with visit_generic_param_def_ks (v : Visitor) (path : Path) (p : GenericParamDef) {struct p} :
  keeps_sorted (visit_generic_param_def v path p)
with visit_fn_decl_ks (v : Visitor) (path : Path) (d : FnDecl) {struct d} :
  keeps_sorted (visit_fn_decl v path d).
Proof.
  - destruct t as [n i args pn| | |decl gps|types|ty|ty len|bounds| |m ty|lt m ty|n st tr];
      cbn [visit_type].
    + repeat ks_step; [apply visit_generic_args_ks| ks_list visit_generic_bound_ks].
    + apply ks_ret.
    + apply ks_ret.
    + ks_step; [apply visit_fn_decl_ks | ks_list visit_generic_param_def_ks].
    + ks_list (visit_type_ks v path ErrorLocation.EnumTupleEntry).
    + apply visit_type_ks.
    + apply visit_type_ks.
    + apply ks_iterM. revert bounds. fix go 1. intros [|[tr gps m|l] r]; constructor.
      * ks_step; [apply visit_type_ks | ks_list visit_generic_param_def_ks].
      * apply go.
      * apply ks_ret.
      * apply go.
    + apply ks_panic.
    + apply visit_type_ks.
    + apply visit_type_ks.
    + ks_step; apply visit_type_ks.
  - destruct a as [args bindings|inputs output]; cbn [visit_generic_args].
    + ks_step.
      * apply ks_iterM. revert args. fix go 1.
        intros [|[l|ty|c|] r]; constructor; try apply go; try apply ks_ret.
        apply visit_type_ks.
      * apply ks_iterM. revert bindings. fix go 1.
        intros [|[n ga [[ty|c]|bs]] r]; constructor; try apply go; try apply ks_ret.
        -- apply visit_type_ks.
        -- ks_list visit_generic_bound_ks.
    + ks_step; [ks_list (visit_type_ks v path ErrorLocation.ClosureInput)|].
      destruct output; [apply visit_type_ks | apply ks_ret].
  - destruct b as [tr gps m|l]; cbn [visit_generic_bound].
    + ks_step; [apply visit_type_ks | ks_list visit_generic_param_def_ks].
    + apply ks_ret.
  - destruct p as [n [ls|bounds default syn|ty def]]; cbn [visit_generic_param_def].
    + apply ks_ret.
    + ks_step; [ks_list visit_generic_bound_ks|].
      destruct default; [apply visit_type_ks | apply ks_ret].
    + apply visit_type_ks.
  - destruct d as [inputs output cv]; cbn [visit_fn_decl].
    ks_step.
    + match goal with
      | |- keeps_sorted (?F 0 inputs) =>
          cut (forall l k, keeps_sorted (F k l)); [intros H; apply H|]
      end.
      fix go 1. intros [|[n ty] r] k; cbv beta iota.
      * apply ks_ret.
      * ks_step; [|apply go]. destruct (Nat.eqb k 0 && String.eqb n "self");
          [apply ks_ret | apply visit_type_ks].
    + destruct output; [apply visit_type_ks | apply ks_ret].
Qed.

Lemma visit_generic_bounds_ks (v : Visitor) (path : Path) (bs : list GenericBound) :
  keeps_sorted (visit_generic_bounds v path bs).
Proof. apply ks_iterM_all. apply visit_generic_bound_ks. Qed.

Lemma visit_generic_param_defs_ks (v : Visitor) (path : Path) (ps : list GenericParamDef) :
  keeps_sorted (visit_generic_param_defs v path ps).
Proof. apply ks_iterM_all. apply visit_generic_param_def_ks. Qed.

Lemma visit_generics_ks (v : Visitor) (path : Path) (g : Generics) :
  keeps_sorted (visit_generics v path g).
Proof.
  unfold visit_generics. ks_step; [apply visit_generic_param_defs_ks|].
  apply ks_iterM_all. intros [ty bs gps|l bs|lhs rhs].
  - repeat ks_step;
      [apply visit_type_ks | apply visit_generic_bounds_ks | apply visit_generic_param_defs_ks].
  - apply visit_generic_bounds_ks.
  - apply visit_type_ks.
Qed.

Create HintDb ks.
#[local] Hint Resolve visit_type_ks visit_generic_bound_ks visit_fn_decl_ks visit_generics_ks visit_generic_bounds_ks
  ks_ret ks_panic ks_out_of_fuel ks_item : ks.

Lemma visit_item_inner_ks (v : Visitor) (rec : Path -> Item -> VisibilityCheck -> M unit)
    (path : Path) (it : Item) :
  (forall p x c, keeps_sorted (rec p x c)) ->
  keeps_sorted (visit_item_inner v rec path it).
Proof.
  intros Hrec.
  unfold visit_item_inner, visit_struct, visit_union, visit_trait, visit_variant, visit_impl.
  destruct (inner it); repeat (ks_step || apply ks_iterM_all; intros); auto with ks.
Qed.

Lemma visit_item_ks (fuel : nat) (v : Visitor) (path : Path) (it : Item) (c : VisibilityCheck) :
  keeps_sorted (visit_item fuel v path it c).
Proof.
  revert path it c. induction fuel as [|fuel IH]; intros path it c; simpl;
    (destruct (_ && _); [apply ks_ret|]); apply visit_item_inner_ks; intros; auto with ks.
Qed.

Lemma run_sorted (fuel : nat) (cfg : Config) (c : Crate) (errs : ErrSet) :
  run fuel cfg c = ROk errs -> es_sorted errs.
Proof.
  unfold run. destruct (Visitor_new cfg c) as [v| | |]; try discriminate.
  unfold visit_all. destruct (find_root_module (index v)) as [m|]; try discriminate.
  unfold visit_root_module.
  destruct (iterM _ _ es_empty) as [[u s']| | |] eqn:E; try discriminate.
  intros H; inversion H; subst.
  refine (ks_iterM_all _ _ _ es_empty u errs _ E).
  - intros i. apply ks_bind; [apply ks_item | intros; apply visit_item_ks].
  - constructor.
Qed.

(** The crate root modules of a run. *)
Definition crate_root_modules (c : Crate) : list Module_ := root_modules (crate_index c).

(** C8 (amended): two runs with the same policy on the same crate, whose
    index map is iterated in any two orders (the paths map being the same),
    give the same result when at most one module of the index is tagged as
    the crate root; the errors of a run are then the error set, which is
    kept in increasing order. *)
Theorem run_deterministic (fuel : nat) (cfg : Config) (c1 c2 : Crate) :
  Permutation (crate_index c1) (crate_index c2) ->
  NoDup (map fst (crate_index c1)) ->
  root c1 = root c2 ->
  crate_paths c1 = crate_paths c2 ->
  length (crate_root_modules c1) <= 1 ->
  run fuel cfg c1 = run fuel cfg c2 /\ (forall errs, run fuel cfg c1 = ROk errs -> es_sorted errs).
Proof.
  intros Hp Hd Hr Hpaths Hl. split; [|apply run_sorted].
  pose proof (lookup_perm _ _ Hp Hd) as Hk.
  unfold run, Visitor_new. rewrite Hk, Hr, Hpaths.
  destruct (lookup (root c2) (crate_index c2)) as [r|]; auto.
  destruct (name r) as [n|]; auto.
  unfold visit_all; simpl. rewrite (find_root_module_perm _ _ Hp Hl).
  destruct (find_root_module (crate_index c2)) as [m|]; auto.
  apply visit_root_module_same_map. exact Hk.
Qed.

Lemma run_deterministic_witness :
  run 10 Examples.own_types_only Examples.crate_mylib
    = run 10 Examples.own_types_only Examples.crate_mylib_rev /\
  (forall errs, run 10 Examples.own_types_only Examples.crate_mylib = ROk errs -> es_sorted errs).
Proof.
  apply run_deterministic.
  - apply Permutation_rev.
  - vm_compute. repeat constructor; simpl; intuition discriminate.
  - reflexivity.
  - reflexivity.
  - vm_compute. lia.
Defined.

(** C8 (counterexample): the same map iterated in two orders, with two
    modules tagged as crate root, gives two different results. *)
Lemma C8_iteration_order_changes_output :
  Permutation (crate_index Examples.crate_two_roots) (crate_index Examples.crate_two_roots') /\
  run 10 Examples.own_types_only Examples.crate_two_roots
    <> run 10 Examples.own_types_only Examples.crate_two_roots'.
Proof.
  split.
  - apply Permutation_sym, (Permutation_cons_append [("0:0", Examples.root_item ["0:1"]); ("0:1", Examples.f_item)]).
  - intros H. vm_compute in H. discriminate H.
Qed.

(* ------------------------------------------------------------------ *)
(** ** Invariants of the whole walk *)

(** A property of computations that holds of [ret], [panic] and
    [check_external] and is kept by [bind] holds of every step of the type
    walk; when it also holds of [fail] and [out_of_fuel], it holds of
    [visit_item]. *)
Section WalkInvariant.
Variable P : forall {A : Type}, M A -> Prop.
Hypothesis P_ret : forall (A : Type) (a : A), P (ret a).
Hypothesis P_bind : forall (A B : Type) (m : M A) (k : A -> M B),
  P m -> (forall a, P (k a)) -> P (bind m k).
Hypothesis P_panic : forall (A : Type) (msg : string), P (@panic A msg).
Variable v : Visitor.
Hypothesis P_check : forall path what i, P (check_external v path what i).

Lemma P_iterM {A : Type} (f : A -> M unit) (l : list A) :
  Forall (fun x => P (f x)) l -> P (iterM f l).
Proof. induction 1; simpl; [apply P_ret|]. apply P_bind; auto. Qed.

Lemma P_iterM_all {A : Type} (f : A -> M unit) (l : list A) :
  (forall x, P (f x)) -> P (iterM f l).
Proof. intros H. apply P_iterM, Forall_forall. auto. Qed.

Local Ltac inv_step :=
  match goal with
  | |- P (bind _ _) => apply P_bind; intros
  | |- P (ret _) => apply P_ret
  | |- P (panic _) => apply P_panic
  | |- P (check_external _ _ _ _) => apply P_check
  | |- P (if ?b then _ else _) => destruct b
  | |- P (match ?x with _ => _ end) => destruct x
  end.

Local Ltac inv_list rec :=
  let go := fresh "go" in
  let x := fresh "x" in
  let r := fresh "r" in
  apply P_iterM;
  match goal with |- Forall _ ?l => revert l end;
  fix go 1; intros [|x r]; constructor; [apply rec | apply go].

Fixpoint visit_type_inv (path : Path) (what : ErrorLocation.t) (t : Ty) {struct t} :
  P (visit_type v path what t)
with visit_generic_args_inv (path : Path) (a : GenericArgs) {struct a} :
  P (visit_generic_args v path a)
with visit_generic_bound_inv (path : Path) (b : GenericBound) {struct b} :
  P (visit_generic_bound v path b)
with visit_generic_param_def_inv (path : Path) (p : GenericParamDef) {struct p} :
  P (visit_generic_param_def v path p)
with visit_fn_decl_inv (path : Path) (d : FnDecl) {struct d} :
  P (visit_fn_decl v path d).
Proof.
  - destruct t as [n i args pn| | |decl gps|types|ty|ty len|bounds| |m ty|lt m ty|n st tr];
      cbn [visit_type].
    + repeat inv_step; [apply visit_generic_args_inv | inv_list visit_generic_bound_inv].
    + apply P_ret.
    + apply P_ret.
    + inv_step; [apply visit_fn_decl_inv | inv_list visit_generic_param_def_inv].
    + inv_list (visit_type_inv path ErrorLocation.EnumTupleEntry).
    + apply visit_type_inv.
    + apply visit_type_inv.
    + apply P_iterM. revert bounds. fix go 1. intros [|[tr gps m|l] r]; constructor.
      * inv_step; [apply visit_type_inv | inv_list visit_generic_param_def_inv].
      * apply go.
      * apply P_ret.
      * apply go.
    + apply P_panic.
    + apply visit_type_inv.
    + apply visit_type_inv.
    + inv_step; apply visit_type_inv.
  - destruct a as [args bindings|inputs output]; cbn [visit_generic_args].
    + inv_step.
      * apply P_iterM. revert args. fix go 1.
        intros [|[l|ty|c|] r]; constructor; try apply go; try apply P_ret.
        apply visit_type_inv.
      * apply P_iterM. revert bindings. fix go 1.
        intros [|[n ga [[ty|c]|bs]] r]; constructor; try apply go; try apply P_ret.
        -- apply visit_type_inv.
        -- inv_list visit_generic_bound_inv.
    + inv_step; [inv_list (visit_type_inv path ErrorLocation.ClosureInput)|].
      destruct output; [apply visit_type_inv | apply P_ret].
  - destruct b as [tr gps m|l]; cbn [visit_generic_bound].
    + inv_step; [apply visit_type_inv | inv_list visit_generic_param_def_inv].
    + apply P_ret.
  - destruct p as [n [ls|bounds default syn|ty def]]; cbn [visit_generic_param_def].
    + apply P_ret.
    + inv_step; [inv_list visit_generic_bound_inv|].
      destruct default; [apply visit_type_inv | apply P_ret].
    + apply visit_type_inv.
  - destruct d as [inputs output cv]; cbn [visit_fn_decl].
    inv_step.
    + match goal with
      | |- P (?F 0 inputs) => cut (forall l k, P (F k l)); [intros H; apply H|]
      end.
      fix go 1. intros [|[n ty] r] k; cbv beta iota.
      * apply P_ret.
      * inv_step; [|apply go]. destruct (Nat.eqb k 0 && String.eqb n "self");
          [apply P_ret | apply visit_type_inv].
    + destruct output; [apply visit_type_inv | apply P_ret].
Qed.

Lemma visit_generic_bounds_inv (path : Path) (bs : list GenericBound) :
  P (visit_generic_bounds v path bs).
Proof. apply P_iterM_all. apply visit_generic_bound_inv. Qed.

Lemma visit_generic_param_defs_inv (path : Path) (ps : list GenericParamDef) :
  P (visit_generic_param_defs v path ps).
Proof. apply P_iterM_all. apply visit_generic_param_def_inv. Qed.

Lemma visit_generics_inv (path : Path) (g : Generics) : P (visit_generics v path g).
Proof.
  unfold visit_generics. inv_step; [apply visit_generic_param_defs_inv|].
  apply P_iterM_all. intros [ty bs gps|l bs|lhs rhs].
  - repeat inv_step;
      [apply visit_type_inv | apply visit_generic_bounds_inv | apply visit_generic_param_defs_inv].
  - apply visit_generic_bounds_inv.
  - apply visit_type_inv.
Qed.

Hypothesis P_fail : forall (A : Type) (msg : string), P (@fail A msg).
Hypothesis P_out_of_fuel : forall (A : Type), P (@out_of_fuel A).

Lemma P_item (i : Id) : P (item v i).
Proof. unfold item. destruct (lookup i (index v)); [apply P_ret | apply P_fail]. Qed.

Lemma visit_item_inner_inv (rec : Path -> Item -> VisibilityCheck -> M unit) (path : Path) (it : Item) :
  (forall p x c, P (rec p x c)) -> P (visit_item_inner v rec path it).
Proof.
  intros Hrec.
  unfold visit_item_inner, visit_struct, visit_union, visit_trait, visit_variant, visit_impl.
  destruct (inner it); repeat (inv_step || apply P_iterM_all; intros);
    first [ apply visit_type_inv | apply visit_generic_bound_inv | apply visit_generics_inv
          | apply visit_fn_decl_inv | apply P_item | apply Hrec | apply P_ret | apply P_panic ].
Qed.

Lemma visit_item_inv (fuel : nat) (path : Path) (it : Item) (c : VisibilityCheck) :
  P (visit_item fuel v path it c).
Proof.
  revert path it c. induction fuel as [|fuel IH]; intros path it c; simpl;
    (destruct (_ && _); [apply P_ret|]); apply visit_item_inner_inv; intros; auto.
Qed.

End WalkInvariant.

Lemma es_insert_In (e y : ValidationError) (s : ErrSet) :
  In y (es_insert e s) -> y = e \/ In y s.
Proof.
  induction s as [|x r IH]; simpl; intros H.
  - destruct H as [<-|[]]. left; reflexivity.
  - destruct (ve_cmp e x); simpl in H.
    + right; exact H.
    + destruct H as [<-|H]; [left; reflexivity | right; exact H].
    + destruct H as [<-|H]; [right; left; reflexivity|].
      destruct (IH H) as [->|H']; [left; reflexivity | right; right; exact H'].
Qed.

(** An error the visitor may report: its type name is the rendered path of
    an entry of the paths map, and the policy does not allow it. *)
Definition reported (v : Visitor) (x : ValidationError) : Prop :=
  allows_type (config v) (root_crate_name v) (ve_type_name x) = false /\
  exists i sm, lookup i (paths v) = Some sm /\ join "::" (summary_path sm) = ve_type_name x.

(** A computation that, when it returns, keeps every error of the set and
    adds only reportable ones. *)
Definition only_adds_reported (v : Visitor) {A : Type} (m : M A) : Prop :=
  forall s a s', m s = ROk (a, s') -> incl s s' /\ forall x, In x s' -> In x s \/ reported v x.

Lemma oar_ret (v : Visitor) (A : Type) (a : A) : only_adds_reported v (ret a).
Proof.
  intros s x s' H. inversion H; subst. split; [apply incl_refl | intros y Hy; left; exact Hy].
Qed.

Lemma oar_bind (v : Visitor) (A B : Type) (m : M A) (k : A -> M B) :
  only_adds_reported v m -> (forall a, only_adds_reported v (k a)) ->
  only_adds_reported v (bind m k).
Proof.
  intros Hm Hk s b s' H. unfold bind in H.
  destruct (m s) as [[a s1]| | |] eqn:E; try discriminate.
  destruct (Hm _ _ _ E) as [I1 N1]. destruct (Hk a _ _ _ H) as [I2 N2].
  split; [exact (incl_tran I1 I2)|].
  intros x Hx. destruct (N2 x Hx) as [Hx1|Hr]; [exact (N1 x Hx1) | right; exact Hr].
Qed.

Lemma oar_panic (v : Visitor) (A : Type) (msg : string) : only_adds_reported v (@panic A msg).
Proof. intros s a s' H. discriminate. Qed.

Lemma oar_fail (v : Visitor) (A : Type) (msg : string) : only_adds_reported v (@fail A msg).
Proof. intros s a s' H. discriminate. Qed.

Lemma oar_out_of_fuel (v : Visitor) (A : Type) : only_adds_reported v (@out_of_fuel A).
Proof. intros s a s' H. discriminate. Qed.

Lemma oar_check (v : Visitor) (path : Path) (what : ErrorLocation.t) (i : Id) :
  only_adds_reported v (check_external v path what i).
Proof.
  unfold check_external, type_name, item_summary.
  destruct (lookup i (paths v)) as [sm|] eqn:E.
  - destruct (allows_type (config v) (root_crate_name v) (join "::" (summary_path sm))) eqn:A;
      simpl; [apply oar_ret|].
    intros s a s' H. unfold add_error, ret in H. inversion H; subst.
    split; [apply es_insert_incl|].
    intros x Hx. destruct (es_insert_In _ _ _ Hx) as [->|Hx']; [right|left; exact Hx'].
    split; [exact A|]. exists i, sm. split; [exact E | reflexivity].
  - destruct (negb _); [apply oar_panic | apply oar_ret].
Qed.

Lemma oar_item (v : Visitor) (i : Id) : only_adds_reported v (item v i).
Proof. unfold item. destruct (lookup i (index v)); [apply oar_ret | apply oar_fail]. Qed.

Lemma visit_item_only_adds_reported (fuel : nat) (v : Visitor) (path : Path) (it : Item)
    (c : VisibilityCheck) :
  only_adds_reported v (visit_item fuel v path it c).
Proof.
  apply (visit_item_inv (@only_adds_reported v)).
  - apply oar_ret.
  - apply oar_bind.
  - apply oar_panic.
  - apply oar_check.
  - apply oar_fail.
  - apply oar_out_of_fuel.
Qed.

Lemma run_errors_reported (fuel : nat) (cfg : Config) (c : Crate) (errs : ErrSet) (x : ValidationError) :
  run fuel cfg c = ROk errs -> In x errs ->
  exists r n, lookup (root c) (crate_index c) = Some r /\ name r = Some n /\
    allows_type cfg n (ve_type_name x) = false /\
    exists i sm, lookup i (crate_paths c) = Some sm /\ join "::" (summary_path sm) = ve_type_name x.
Proof.
  unfold run, Visitor_new.
  destruct (lookup (root c) (crate_index c)) as [r|] eqn:Er; try discriminate.
  destruct (name r) as [n|] eqn:En; try discriminate.
  set (V := mkVisitor cfg (crate_id r) n (crate_index c) (crate_paths c)).
  unfold visit_all. destruct (find_root_module (index V)) as [m|]; try discriminate.
  unfold visit_root_module.
  destruct (iterM _ _ es_empty) as [[u s']| | |] eqn:E; try discriminate.
  intros H Hx. inversion H; subst.
  assert (Hm : only_adds_reported V
                 (iterM (fun i => it <- item V i ;;
                                  visit_item fuel V (path_new (root_crate_name V)) it Default)
                    (module_items m))).
  { apply (P_iterM_all (@only_adds_reported V)); [apply oar_ret | apply oar_bind |].
    intros i. apply oar_bind; [apply oar_item | intros; apply visit_item_only_adds_reported]. }
  destruct (Hm _ _ _ E) as [_ N]. destruct (N x Hx) as [[]|[A [i [sm [Hi Hj]]]]].
  exists r, n. repeat split; auto. exists i, sm. split; assumption.
Qed.

(** X1: the walk never removes an error: when [visit_item] returns, every
    error recorded before the call is still in the set. *)
Theorem visit_item_never_removes (fuel : nat) (v : Visitor) (path : Path) (it : Item)
    (c : VisibilityCheck) (s s' : ErrSet) :
  visit_item fuel v path it c s = ROk (tt, s') -> incl s s'.
Proof. intros H. exact (proj1 (visit_item_only_adds_reported fuel v path it c s tt s' H)). Qed.

Lemma visit_item_never_removes_witness :
  incl [MoreExamples.gadget_error] [MoreExamples.gadget_error; Examples.widget_error].
Proof.
  apply (visit_item_never_removes 5 Examples.mylib Examples.root_path Examples.f_item Default
           [MoreExamples.gadget_error] [MoreExamples.gadget_error; Examples.widget_error]).
  vm_compute. reflexivity.
Defined.

(** X2: every error that [visit_item] adds names a type that resolves in
    the paths map (its name is the joined summary path of some id) and that
    the policy does not allow for the root crate. *)
Theorem visit_item_adds_only_disallowed (fuel : nat) (v : Visitor) (path : Path) (it : Item)
    (c : VisibilityCheck) (s s' : ErrSet) (x : ValidationError) :
  visit_item fuel v path it c s = ROk (tt, s') -> In x s' -> ~ In x s ->
  allows_type (config v) (root_crate_name v) (ve_type_name x) = false /\
  exists i sm, lookup i (paths v) = Some sm /\ join "::" (summary_path sm) = ve_type_name x.
Proof.
  intros H Hx Hn.
  destruct (proj2 (visit_item_only_adds_reported fuel v path it c s tt s' H) x Hx) as [Hs|Hr].
  - contradiction.
  - exact Hr.
Qed.

Lemma visit_item_adds_only_disallowed_witness :
  allows_type (config Examples.mylib) (root_crate_name Examples.mylib)
    (ve_type_name Examples.widget_error) = false /\
  exists i sm, lookup i (paths Examples.mylib) = Some sm /\
    join "::" (summary_path sm) = ve_type_name Examples.widget_error.
Proof.
  apply (visit_item_adds_only_disallowed 5 Examples.mylib Examples.root_path Examples.f_item Default
           [] [Examples.widget_error] Examples.widget_error).
  - vm_compute. reflexivity.
  - left. reflexivity.
  - intros [].
Defined.

(** X3: every error of a successful run names a type that resolves in the
    crate's paths map and that the policy does not allow for the crate root's
    name. *)
Theorem run_reports_only_disallowed (fuel : nat) (cfg : Config) (c : Crate) (errs : ErrSet)
    (x : ValidationError) :
  run fuel cfg c = ROk errs -> In x errs ->
  exists r n, lookup (root c) (crate_index c) = Some r /\ name r = Some n /\
    allows_type cfg n (ve_type_name x) = false /\
    exists i sm, lookup i (crate_paths c) = Some sm /\ join "::" (summary_path sm) = ve_type_name x.
Proof. apply run_errors_reported. Qed.

Lemma run_reports_only_disallowed_witness :
  exists r n, lookup (root Examples.crate_mylib) (crate_index Examples.crate_mylib) = Some r /\
    name r = Some n /\
    allows_type Examples.own_types_only n (ve_type_name Examples.widget_error) = false /\
    exists i sm, lookup i (crate_paths Examples.crate_mylib) = Some sm /\
      join "::" (summary_path sm) = ve_type_name Examples.widget_error.
Proof.
  apply (run_reports_only_disallowed 10 Examples.own_types_only Examples.crate_mylib
           [MoreExamples.gadget_error; Examples.widget_error]).
  - vm_compute. reflexivity.
  - right. left. reflexivity.
Defined.

(** The policy that allows every type. *)
Definition allow_all : Config := mkConfig (fun _ _ => true).

(** X4: under a policy that allows every type, a successful run reports no
    error. *)
Theorem run_allow_all_no_errors (fuel : nat) (cfg : Config) (c : Crate) (errs : ErrSet) :
  (forall n tn, allows_type cfg n tn = true) ->
  run fuel cfg c = ROk errs -> errs = [].
Proof.
  intros Ha H. destruct errs as [|x r]; [reflexivity|].
  destruct (run_errors_reported fuel cfg c (x :: r) x H (or_introl eq_refl))
    as [rt [n [_ [_ [A _]]]]].
  rewrite Ha in A. discriminate.
Qed.

Lemma run_allow_all_no_errors_witness :
  exists errs, run 10 allow_all Examples.crate_mylib = ROk errs /\ errs = [].
Proof.
  exists []. split; [vm_compute; reflexivity|].
  apply (run_allow_all_no_errors 10 allow_all Examples.crate_mylib []).
  - reflexivity.
  - vm_compute. reflexivity.
Defined.

(** The errors a computation adds, replayed onto any error set. *)
Fixpoint es_insert_all (l : list ValidationError) (s : ErrSet) : ErrSet :=
  match l with
  | [] => s
  | e :: r => es_insert_all r (es_insert e s)
  end.

Definition replay {A : Type} (r : Result (A * list ValidationError)) : M A :=
  fun s =>
    match r with
    | ROk (a, l) => ROk (a, es_insert_all l s)
    | RErr e => RErr e
    | RPanic e => RPanic e
    | RFuel => RFuel
    end.

(** A computation that never reads the error set: its outcome and the
    errors it inserts are the same from every error set. *)
Definition state_blind {A : Type} (m : M A) : Prop :=
  exists r : Result (A * list ValidationError), forall s, m s = replay r s.

Lemma es_insert_all_app (l1 l2 : list ValidationError) (s : ErrSet) :
  es_insert_all (l1 ++ l2) s = es_insert_all l2 (es_insert_all l1 s).
Proof. revert s. induction l1 as [|e r IH]; intros s; simpl; auto. Qed.

Lemma sb_ret (A : Type) (a : A) : state_blind (ret a).
Proof. exists (ROk (a, [])). reflexivity. Qed.

Lemma sb_bind (A B : Type) (m : M A) (k : A -> M B) :
  state_blind m -> (forall a, state_blind (k a)) -> state_blind (bind m k).
Proof.
  intros [r1 H1] Hk. unfold bind.
  destruct r1 as [[a l1]|e|e|].
  - destruct (Hk a) as [r2 H2].
    exists (match r2 with
            | ROk (b, l2) => ROk (b, (l1 ++ l2)%list)
            | RErr e => RErr e
            | RPanic e => RPanic e
            | RFuel => RFuel
            end).
    intros s. rewrite H1. simpl. rewrite H2.
    destruct r2 as [[b l2]| | |]; simpl; auto. rewrite es_insert_all_app. reflexivity.
  - exists (RErr e). intros s. rewrite H1. reflexivity.
  - exists (RPanic e). intros s. rewrite H1. reflexivity.
  - exists RFuel. intros s. rewrite H1. reflexivity.
Qed.

Lemma sb_panic (A : Type) (msg : string) : state_blind (@panic A msg).
Proof. exists (RPanic msg). reflexivity. Qed.

Lemma sb_fail (A : Type) (msg : string) : state_blind (@fail A msg).
Proof. exists (RErr msg). reflexivity. Qed.

Lemma sb_out_of_fuel (A : Type) : state_blind (@out_of_fuel A).
Proof. exists RFuel. reflexivity. Qed.

Lemma sb_check (v : Visitor) (path : Path) (what : ErrorLocation.t) (i : Id) :
  state_blind (check_external v path what i).
Proof.
  unfold check_external. destruct (type_name v i) as [tn|].
  - destruct (negb _); [|apply sb_ret].
    exists (ROk (tt, [unapproved_external_type_ref tn what (path_to_string path) (last_span path)])).
    reflexivity.
  - destruct (negb _); [apply sb_panic | apply sb_ret].
Qed.

(** X5: [visit_item] never reads the error set: there is one outcome (a
    value and the list of errors inserted, or a failure) such that, from
    every error set, the call gives that outcome with those errors
    inserted. Errors recorded earlier never change what a visit reports or
    whether it fails. *)
Theorem visit_item_state_blind (fuel : nat) (v : Visitor) (path : Path) (it : Item)
    (c : VisibilityCheck) :
  exists r : Result (unit * list ValidationError),
    forall s, visit_item fuel v path it c s = replay r s.
Proof.
  apply (visit_item_inv (@state_blind)).
  - apply sb_ret.
  - apply sb_bind.
  - apply sb_panic.
  - apply sb_check.
  - apply sb_fail.
  - apply sb_out_of_fuel.
Qed.







(* ------------------------------------------------------------------ *)
(** ** Edge behaviour of single functions *)

(** The parameters that [visit_fn_decl] checks: all of them, except a first
    one named [self]. *)
Definition checked_inputs (inputs : list (string * Ty)) : list (string * Ty) :=
  match inputs with
  | (n, _) :: r => if String.eqb n "self" then r else inputs
  | [] => []
  end.

(** X7: [visit_fn_decl] checks every parameter under its own name, then
    the return type, except a receiver [self] in first position; a
    parameter named [self] in any later position is still checked. *)
Theorem visit_fn_decl_receiver (v : Visitor) (path : Path) (inputs : list (string * Ty))
    (output : option Ty) (cv : bool) :
  visit_fn_decl v path (mkFnDecl inputs output cv) =
    (iterM (fun p => visit_type v path (ErrorLocation.ArgumentNamed (fst p)) (snd p))
       (checked_inputs inputs) ;;
     match output with
     | Some o => visit_type v path ErrorLocation.ReturnValue o
     | None => ret tt
     end).
Proof.
  cbn [visit_fn_decl].
  match goal with
  | |- bind (?F 0 inputs) _ = _ =>
      assert (HS : forall k l, F (S k) l =
                iterM (fun p => visit_type v path (ErrorLocation.ArgumentNamed (fst p)) (snd p)) l)
  end.
  { intros k l. revert k. induction l as [|[n ty] r IH]; intros k; [reflexivity|].
    simpl. rewrite IH. reflexivity. }
  destruct inputs as [|[n ty] r]; [reflexivity|].
  unfold checked_inputs. destruct (String.eqb n "self") eqn:E; simpl; rewrite HS; reflexivity.
Qed.

(** [id.0] has no [':'] before the separator that [in_root_crate] looks for. *)
Fixpoint no_colon (s : string) : bool :=
  match s with
  | EmptyString => true
  | String c r => negb (Ascii.eqb c ":"%char) && no_colon r
  end.

Lemma no_colon_digits (d : Decimal.uint) : no_colon (NilEmpty.string_of_uint d) = true.
Proof. induction d; simpl; auto. Qed.

Lemma no_colon_string_of_N (n : N) : no_colon (string_of_N n) = true.
Proof.
  unfold string_of_N, NilZero.string_of_uint.
  destruct (N.to_uint n); try reflexivity; apply no_colon_digits.
Qed.

Lemma colon_split (a b r1 r2 : string) :
  no_colon a = true -> no_colon b = true -> a ++ ":" ++ r1 = b ++ ":" ++ r2 -> a = b.
Proof.
  revert b. induction a as [|ca a IH]; intros [|cb b] Ha Hb H; simpl in *.
  - reflexivity.
  - injection H as <- _. discriminate Hb.
  - injection H as -> _. discriminate Ha.
  - injection H as <- H. apply andb_prop in Ha as [_ Ha]. apply andb_prop in Hb as [_ Hb].
    f_equal. exact (IH b Ha Hb H).
Qed.

Lemma prefix_app_iff (p s : string) : String.prefix p s = true <-> exists r, s = p ++ r.
Proof.
  revert s. induction p as [|a p IH]; intros [|b s]; simpl.
  - split; intros; [exists ""; reflexivity | reflexivity].
  - split; intros; [exists (String b s); reflexivity | reflexivity].
  - split; [discriminate | intros [r H]; discriminate].
  - destruct (ascii_dec a b) as [<-|Hne].
    + rewrite IH. split; intros [r H]; exists r; [rewrite H; reflexivity | injection H; auto].
    + split; [discriminate | intros [r H]; injection H as H1 _; congruence].
Qed.

Lemma string_app_assoc (a b c : string) : a ++ b ++ c = (a ++ b) ++ c.
Proof. induction a as [|x a IH]; simpl; [reflexivity | rewrite IH; reflexivity]. Qed.

(** Reading back the decimal rendering of a crate id. *)
Definition N_of_string (s : string) : N :=
  match NilZero.uint_of_string s with
  | Some d => N.of_uint d
  | None => 0%N
  end.

Lemma N_of_string_of_N (n : N) : N_of_string (string_of_N n) = n.
Proof.
  unfold N_of_string, string_of_N.
  transitivity (N.of_uint (N.to_uint n)); [|apply DecimalN.Unsigned.of_to].
  destruct (N.to_uint n); [reflexivity|..]; rewrite NilZero.usu; (reflexivity || discriminate).
Qed.

Lemma string_of_N_inj (a b : N) : string_of_N a = string_of_N b -> a = b.
Proof. intros H. rewrite <- (N_of_string_of_N a), H. apply N_of_string_of_N. Qed.

(** X8: an id whose crate part is the decimal number [k] belongs to the
    root crate exactly when [k] is the root crate's id: the [':'] after the
    number keeps crate [1] apart from crate [10]. *)
Theorem in_root_crate_crate_id (v : Visitor) (k : N) (r : string) :
  in_root_crate v (string_of_N k ++ ":" ++ r) = true <-> k = root_crate_id v.
Proof.
  unfold in_root_crate. rewrite prefix_app_iff. split.
  - intros [r' H]. rewrite <- string_app_assoc in H.
    apply string_of_N_inj.
    exact (colon_split _ _ _ _ (no_colon_string_of_N k) (no_colon_string_of_N (root_crate_id v)) H).
  - intros ->. exists r. apply string_app_assoc.
Qed.

(** X9: a run on a crate whose root id is not in the index fails with the
    error "root not found in index", before anything is visited. *)
Theorem run_root_missing (fuel : nat) (cfg : Config) (c : Crate) :
  lookup (root c) (crate_index c) = None -> run fuel cfg c = RErr "root not found in index".
Proof. intros H. unfold run, Visitor_new. rewrite H. reflexivity. Qed.

Lemma run_root_missing_witness :
  run 10 Examples.own_types_only MoreExamples.crate_no_root = RErr "root not found in index".
Proof. apply run_root_missing. reflexivity. Defined.

(** X10: a run on a crate whose root item has no name panics. *)
Theorem run_root_unnamed (fuel : nat) (cfg : Config) (c : Crate) (r : Item) :
  lookup (root c) (crate_index c) = Some r -> name r = None ->
  run fuel cfg c = RPanic "root should always have a name".
Proof. intros H Hn. unfold run, Visitor_new. rewrite H, Hn. reflexivity. Qed.

Lemma run_root_unnamed_witness :
  run 10 Examples.own_types_only MoreExamples.crate_unnamed_root
    = RPanic "root should always have a name".
Proof.
  apply (run_root_unnamed 10 Examples.own_types_only MoreExamples.crate_unnamed_root
           (mkItem "0:0" 0 None None Visibility.Public
              (ItemEnum.Module (mkModule true [] false)))); reflexivity.
Defined.

Lemma iterM_app {A : Type} (f : A -> M unit) (l1 l2 : list A) (s : ErrSet) :
  iterM f (l1 ++ l2) s = bind (iterM f l1) (fun _ => iterM f l2) s.
Proof.
  revert s. induction l1 as [|x r IH]; intros s; simpl; [reflexivity|].
  unfold bind at 1 2 3. destruct (f x s) as [[[] s1]| | |]; auto.
Qed.

(** X11: when the root module lists an id that the index does not hold,
    [visit_all] fails with the lookup error as soon as the loop reaches it
    (the members before it being visited without failure). *)
Theorem visit_all_missing_member (fuel : nat) (v : Visitor) (m : Module_) (pre rest : list Id)
    (i : Id) (s : ErrSet) :
  find_root_module (index v) = Some m ->
  module_items m = (pre ++ i :: rest)%list ->
  iterM (fun i => it <- item v i ;; visit_item fuel v (path_new (root_crate_name v)) it Default)
    pre es_empty = ROk (tt, s) ->
  lookup i (index v) = None ->
  visit_all fuel v = RErr "Failed to find item in index".
Proof.
  intros Hr Hm Hpre Hi. unfold visit_all. rewrite Hr. unfold visit_root_module. rewrite Hm.
  rewrite iterM_app. unfold bind at 1. rewrite Hpre. simpl.
  unfold bind at 1 2, item. rewrite Hi. reflexivity.
Qed.

Lemma visit_all_missing_member_witness :
  visit_all 10 MoreExamples.missing_g = RErr "Failed to find item in index".
Proof.
  apply (visit_all_missing_member 10 MoreExamples.missing_g (mkModule true ["0:1"; "0:6"] false)
           ["0:1"] [] "0:6" [Examples.widget_error]); vm_compute; reflexivity.
Defined.



Lemma iterM_noop {A : Type} (f : A -> M unit) (l : list A) (s : ErrSet) :
  Forall (fun x => f x s = ROk (tt, s)) l -> iterM f l s = ROk (tt, s).
Proof. induction 1; simpl; [reflexivity|]. unfold bind. rewrite H. exact IHForall. Qed.

(** X13: a visited module whose members all come from another crate than
    the root crate (the copies rustdoc lists for re-exported items) records
    nothing: those members are looked up but not visited. *)
Theorem visit_module_other_crate_members (fuel : nat) (v : Visitor) (path : Path) (it : Item)
    (c : VisibilityCheck) (m : Module_) (s : ErrSet) :
  inner it = ItemEnum.Module m ->
  passes_visibility_check path it c ->
  Forall (fun i => exists x, lookup i (index v) = Some x /\ crate_id x <> root_crate_id v)
    (module_items m) ->
  visit_item fuel v path it c s = ROk (tt, s).
Proof.
  intros Hi Hc Hf. rewrite (visit_item_unfold _ _ _ _ _ Hc). unfold visit_item_inner. rewrite Hi.
  cbv zeta. apply iterM_noop. eapply Forall_impl; [|exact Hf].
  intros i [x [Hx Hne]]. unfold bind, item. rewrite Hx. unfold ret.
  rewrite (proj2 (N.eqb_neq _ _) Hne). reflexivity.
Qed.

Lemma visit_module_other_crate_members_witness :
  visit_item 5 MoreExamples.with_copy Examples.root_path MoreExamples.prelude_module Default []
    = ROk (tt, []).
Proof.
  apply (visit_module_other_crate_members 5 MoreExamples.with_copy Examples.root_path
           MoreExamples.prelude_module Default (mkModule false ["1:5"] false) []).
  - reflexivity.
  - right. reflexivity.
  - repeat constructor. exists MoreExamples.widget_copy. split; [reflexivity | discriminate].
Defined.

Lemma last_span_push_raw (p : Path) (t : ComponentType.t) (n : string) (sp : option Span) :
  last_span (push_raw p t n sp) = sp.
Proof. unfold last_span, push_raw. rewrite rev_app_distr. reflexivity. Qed.

(** X14: a visited re-export of an external type that the policy does not
    allow records exactly one error: the type's name, the location
    [ReExport], the path extended by the re-export's name, and the span of
    the [use] item; the target itself is not visited. *)
Theorem visit_reexport_external (fuel : nat) (v : Visitor) (path : Path) (it : Item)
    (c : VisibilityCheck) (imp : Import) (tid tn : string) (s : ErrSet) :
  inner it = ItemEnum.Import imp ->
  import_id imp = Some tid ->
  passes_visibility_check path it c ->
  in_root_crate v tid = false ->
  type_name v tid = Some tn ->
  allows_type (config v) (root_crate_name v) tn = false ->
  visit_item fuel v path it c s =
    ROk (tt, es_insert
               (mkValidationError tn ErrorLocation.ReExport
                  (path_to_string (push_raw path ComponentType.ReExport (import_name imp) (span it)))
                  (span it)) s).
Proof.
  intros Hi Ht Hc Hr Htn Ha. rewrite (visit_item_unfold _ _ _ _ _ Hc). unfold visit_item_inner.
  rewrite Hi, Ht, Hr. unfold bind, ret, check_external. rewrite Htn, Ha.
  unfold negb, add_error, ret, unapproved_external_type_ref. rewrite last_span_push_raw.
  reflexivity.
Qed.

Lemma visit_reexport_external_witness :
  visit_item 5 Examples.mylib Examples.root_path MoreExamples.widget_reexport Default []
    = ROk (tt, [mkValidationError "external_crate::Widget" ErrorLocation.ReExport
                  "mylib::Widget" None]).
Proof.
  apply (visit_reexport_external 5 Examples.mylib Examples.root_path MoreExamples.widget_reexport
           Default (mkImport "external_crate::Widget" "Widget" (Some "1:5") false) "1:5"
           "external_crate::Widget" []); try reflexivity.
  right. reflexivity.
Defined.

